(** * astro.js: positions, transits, rise and set times of the Sun and the Moon

    A shallow embedding of [src/astro.js], in two readings of its numbers.

    Exact arithmetic.  The program is embedded on the real numbers: the
    arithmetic of the source is read as exact arithmetic on [R], and the
    literals of the source ([0.412994], [4121e-18], ...) are the decimal
    numbers they spell.  [Math.sin], [Math.cos], [Math.sqrt], [Math.asin],
    [Math.acos] are the functions of the same name on [R]; [Math.abs] is
    [Rabs]; [Math.floor] is the integer part [Zfloor]; [Math.atan2] is the
    two-argument arctangent with values in (-PI, PI].  There is no rounding,
    no signed zero and no infinity.  The only non-number the program
    produces on purpose, the [NaN] that [riseset] returns when there is no
    event, is a constructor of its own ([NaN] of [number]).  Outside the
    domain of an operation (a division by 0, the square root of a negative
    number, [asin] or [acos] outside [-1, 1]) JavaScript leaves the finite
    numbers, and this reading, which follows the total functions of the
    library there, no longer describes it: a theorem whose content depends
    on the value of such an operation carries the hypothesis that keeps it
    inside the domain (a time a [Date] can hold, an object away from the
    origin, a divisor other than 0).

    Binary64.  What the program computes is rounded.  Where rounding
    decides a claim (the wrap of [hour_angle], the sine of the altitude in
    [Observer], times far beyond the range of [Date]) the expressions
    concerned are embedded a second time, on binary64 numbers, in the
    module [Binary64] at the end of the definitions, and evaluated there.

    Loops.  The two [for(;;)] loops of the source (Kepler's equation in
    [Planet.setTime], the rise/set iteration in [Planet.riseset]) take a
    [fuel : nat]; [None] means that the loop is still running when the fuel
    is spent.  The fuel that is left when [riseset] calls [setTime] is the
    fuel of that call.

    Objects.  A [Planet] object is the record of its four fields; a method
    that assigns to [this] returns the new record. *)

From Stdlib Require Import Floats.
From Stdlib Require Import Reals Lra Lia ZArith Zfloor RNsatz.

Local Open Scope R_scope.
#[local] Set Warnings "-inexact-float".

(** ** Helper functions *)

(* radians *)
Definition obliquity (time : R) : R :=
  0.412994 - 4121e-18 * time.

(* hours *)
Definition gmst (time : R) : R :=
  6.699851 + 278538308153e-18 * time.

(* degrees *)
Definition parallax (distance : R) : R :=
  2443e-6 / distance.

(** ** The [Math] object *)
Module Math.

Definition PI : R := Rtrigo1.PI.
Definition sin : R -> R := Rtrigo_def.sin.
Definition cos : R -> R := Rtrigo_def.cos.
Definition sqrt : R -> R := R_sqrt.sqrt.
Definition abs : R -> R := Rabs.
Definition asin : R -> R := Ratan.asin.
Definition acos : R -> R := Ratan.acos.
Definition floor (v : R) : R := IZR (Zfloor v).

(* The angle of the point (x, y), in (-PI, PI]; 0 at the origin. *)
Definition atan2 (y x : R) : R :=
  if Rlt_dec 0 x then atan (y / x)
  else if Rlt_dec x 0 then
    if Rle_dec 0 y then atan (y / x) + PI else atan (y / x) - PI
  else if Rlt_dec 0 y then PI / 2
  else if Rlt_dec y 0 then - (PI / 2)
  else 0.

End Math.

(** ** class Planet *)

(** The fields of a [Planet] object. *)
Record Planet : Type := mkPlanet {
  time : R;
  x : R;
  y : R;
  z : R
}.

(** Assignments to a field of [this]. *)
Definition set_time (this : Planet) (v : R) : Planet :=
  {| time := v; x := x this; y := y this; z := z this |}.
Definition set_x (this : Planet) (v : R) : Planet :=
  {| time := time this; x := v; y := y this; z := z this |}.
Definition set_y (this : Planet) (v : R) : Planet :=
  {| time := time this; x := x this; y := v; z := z this |}.
Definition set_z (this : Planet) (v : R) : Planet :=
  {| time := time this; x := x this; y := y this; z := v |}.

(** The loop of [Planet.setTime] that solves Kepler's equation: [E] is the
    value of the variable on entry to the loop body. *)
Fixpoint kepler (fuel : nat) (M e E : R) : option R :=
  match fuel with
  | O => None
  | S fuel' =>
      let dM := M - (E - e * Math.sin E) in
      let dE := dM / (1 - e * Math.cos E) in
      let E' := E + dE in
      if Rle_dec (Math.abs dE) 1e-8 then Some E'
      else kepler fuel' M e E'
  end.

(** [Planet.setTime(time, a, e, i, λ, π, Ω)]. *)
Definition Planet_setTime (fuel : nat) (time a e i λ π Ω : R) : option Planet :=
  let M := λ - π in
  let w := π - Ω in
  match kepler fuel M e (M + e * Math.sin M) with
  | None => None
  | Some E =>
      let u := a * (Math.cos E - e) in
      let v := a * Math.sqrt (1 - e * e) * Math.sin E in
      let sin_i := Math.sin i in
      let cos_i := Math.cos i in
      let sin_Ω := Math.sin Ω in
      let cos_Ω := Math.cos Ω in
      let sin_w := Math.sin w in
      let cos_w := Math.cos w in
      let x := u * (cos_w * cos_Ω - sin_w * sin_Ω * cos_i)
               + v * (- sin_w * cos_Ω - cos_w * sin_Ω * cos_i) in
      let y := u * (cos_w * sin_Ω + sin_w * cos_Ω * cos_i)
               + v * (- sin_w * sin_Ω + cos_w * cos_Ω * cos_i) in
      let z := u * (sin_w * sin_i) + v * (cos_w * sin_i) in
      Some {| time := time; x := x; y := y; z := z |}
  end.

(* AU *)
Definition distance (this : Planet) : R :=
  Math.sqrt (x this * x this + y this * y this + z this * z this).


(* degrees *)
Definition latitude (this : Planet) : R :=
  Math.asin (z this / distance this) * (180 / Math.PI).

(* hours *)
Definition right_ascension (this : Planet) : R :=
  let e := obliquity (time this) in
  Math.atan2 (z this * Math.sin e - y this * Math.cos e) (- x this)
    * (12 / Math.PI) + 12.

(* degrees *)
Definition declination (this : Planet) : R :=
  let e := obliquity (time this) in
  Math.asin ((y this * Math.sin e + z this * Math.cos e) / distance this)
    * (180 / Math.PI).

(* hours *)
Definition hour_angle (this : Planet) (lon : R) : R :=
  let ha := gmst (time this) + lon * (1 / 15) - right_ascension this in
  ha - Math.floor (ha / 24) * 24.

(* timestamp; the latitude is not used *)
Definition transit (this : Planet) (lat lon : R) : R :=
  let ha := hour_angle this lon in
  let ha := if Rgt_dec ha 12 then ha - 24 else ha in
  time this - 3590170.4 * ha.

(** ** The subclasses of Planet

    A subclass overrides [setTime(time)] by a call of
    [super.setTime(time, a, e, i, λ, π, Ω)] with its own elements. *)

(** [Sun.setTime(time)]. *)
Definition Sun_setTime (fuel : nat) (time : R) : option Planet :=
  Planet_setTime fuel
    time
    1.000001
    (0.016721 - 13e-18 * time)
    0
    (4.891045 + 199106385e-18 * time)
    (4.929185 + 9510e-18 * time)
    0.

(** [Moon.setTime(time)]. *)
Definition Moon_setTime (fuel : nat) (time : R) : option Planet :=
  Planet_setTime fuel
    time
    0.002563
    0.055546
    0.090001
    (3.455090 + 2661707199e-18 * time)
    (5.282226 + 22504146e-18 * time)
    (6.026367 - 10696962e-18 * time).

(** The class of a body: [Sun], [Moon], or any other subclass of [Planet],
    given by the elements its [setTime] passes to [super.setTime]. *)
Inductive Class : Type :=
| Sun
| Moon
| Subclass (elements : R -> R * R * R * R * R * R).

(** [this.setTime(time)], dispatched on the class of [this]. *)
Definition setTime (cls : Class) (fuel : nat) (time : R) : option Planet :=
  match cls with
  | Sun => Sun_setTime fuel time
  | Moon => Moon_setTime fuel time
  | Subclass elements =>
      let '(a, e, i, λ, π, Ω) := elements time in
      Planet_setTime fuel time a e i λ π Ω
  end.

(** [exports.sun] and [exports.moon]: the constructor calls [setTime]. *)
Definition sun (fuel : nat) (time : R) : option Planet := setTime Sun fuel time.
Definition moon (fuel : nat) (time : R) : option Planet := setTime Moon fuel time.

(** ** Planet.riseset *)

(** What [riseset] returns: a timestamp, or [NaN] when there is no event. *)
Inductive number : Type :=
| NaN
| Num (v : R).

(** The three ways one pass through the body of the loop ends: the [return NaN],
    the [return riseset], and the [continue] after [this.setTime(riseset)]. *)
Inductive pass : Type :=
| Bail
| Accept (riseset : R)
| Iterate (riseset : R).

(** cos_lha as the loop body computes it from the current [this]. *)
Definition cos_lha (sin_lat cos_lat sin_h0 : R) (this : Planet) : R :=
  let dec := declination this in
  let sin_dec := Math.sin (dec * (Math.PI / 180)) in
  let cos_dec := Math.cos (dec * (Math.PI / 180)) in
  (sin_h0 - sin_lat * sin_dec) / (cos_lat * cos_dec).

(** One pass through the loop body, up to the assignment to [this]. *)
Definition riseset_pass (lat lon direction sin_lat cos_lat sin_h0 : R)
    (this : Planet) : pass :=
  let cos_lha := cos_lha sin_lat cos_lat sin_h0 this in
  if Rgt_dec (Math.abs cos_lha) 1 then Bail
  else
    let riseset :=
      transit this lat lon + 13713440.9 * direction * Math.acos cos_lha in
    if Rge_dec (Math.abs (riseset - time this)) 60000 then Iterate riseset
    else Accept riseset.

(** The "restore state" block: four assignments to the fields of [this]. *)
Definition restore (this : Planet) (time_ x_ y_ z_ : R) : Planet :=
  set_z (set_y (set_x (set_time this time_) x_) y_) z_.

(** The loop of [riseset].  [time_ x_ y_ z_] are the constants saved on
    entry, [this] is the object as the loop body finds it.  The result is
    the returned number with the object as the call leaves it. *)
Fixpoint riseset_loop (cls : Class) (fuel : nat)
    (lat lon direction time_ x_ y_ z_ sin_lat cos_lat sin_h0 : R)
    (this : Planet) : option (number * Planet) :=
  match fuel with
  | O => None
  | S fuel' =>
      match riseset_pass lat lon direction sin_lat cos_lat sin_h0 this with
      | Bail => Some (NaN, restore this time_ x_ y_ z_)
      | Iterate riseset =>
          match setTime cls fuel' riseset with
          | None => None
          | Some this' =>
              riseset_loop cls fuel' lat lon direction time_ x_ y_ z_
                sin_lat cos_lat sin_h0 this'
          end
      | Accept riseset => Some (Num riseset, restore this time_ x_ y_ z_)
      end
  end.

(** [this.riseset(lat, lon, h0, direction)]. *)
Definition riseset (cls : Class) (fuel : nat) (this : Planet)
    (lat lon h0 direction : R) : option (number * Planet) :=
  let time_ := time this in
  let x_ := x this in
  let y_ := y this in
  let z_ := z this in
  let sin_lat := Math.sin (lat * (Math.PI / 180)) in
  let cos_lat := Math.cos (lat * (Math.PI / 180)) in
  let sin_h0 := Math.sin (h0 * (Math.PI / 180)) in
  riseset_loop cls fuel lat lon direction time_ x_ y_ z_
    sin_lat cos_lat sin_h0 this.

(** [Planet.rise], [Planet.set] and their overrides in [Sun] and [Moon];
    the argument expressions are evaluated before the call. *)
Definition rise (cls : Class) (fuel : nat) (this : Planet) (lat lon : R)
    : option (number * Planet) :=
  match cls with
  | Sun => riseset cls fuel this lat lon (-0.833) (-1)
  | Moon => riseset cls fuel this lat lon (-0.583 - parallax (distance this)) (-1)
  | Subclass _ => riseset cls fuel this lat lon 0 (-1)
  end.

Definition set (cls : Class) (fuel : nat) (this : Planet) (lat lon : R)
    : option (number * Planet) :=
  match cls with
  | Sun => riseset cls fuel this lat lon (-0.833) 1
  | Moon => riseset cls fuel this lat lon (-0.583 - parallax (distance this)) 1
  | Subclass _ => riseset cls fuel this lat lon 0 1
  end.

(** [Sun.dawn] and [Sun.dusk]. *)
Definition dawn (fuel : nat) (this : Planet) (lat lon : R)
    : option (number * Planet) :=
  riseset Sun fuel this lat lon (-6) (-1).

Definition dusk (fuel : nat) (this : Planet) (lat lon : R)
    : option (number * Planet) :=
  riseset Sun fuel this lat lon (-6) 1.

(** ** class Observer *)

Record Observer : Type := mkObserver {
  altitude : R;
  azimuth : R
}.

(** [new Observer(planet, lat, lon)]. *)
Definition new_Observer (planet : Planet) (lat lon : R) : Observer :=
  let sin_lat := Math.sin (lat * (Math.PI / 180)) in
  let cos_lat := Math.cos (lat * (Math.PI / 180)) in
  let dec := declination planet in
  let sin_dec := Math.sin (dec * (Math.PI / 180)) in
  let cos_dec := Math.cos (dec * (Math.PI / 180)) in
  let ha := hour_angle planet lon in
  let sin_ha := Math.sin (ha * (Math.PI / 12)) in
  let cos_ha := Math.cos (ha * (Math.PI / 12)) in
  let sin_altitude := sin_lat * sin_dec + cos_lat * cos_dec * cos_ha in
  let cos_altitude := Math.sqrt (1 - sin_altitude * sin_altitude) in
  let azimuth :=
    Math.atan2 (cos_dec * sin_ha)
               (sin_lat * cos_dec * cos_ha - cos_lat * sin_dec)
      * (180 / Math.PI) + 180 in
  let altitude :=
    Math.asin sin_altitude * (180 / Math.PI)
    - parallax (distance planet) * cos_altitude in
  {| altitude := altitude; azimuth := azimuth |}.

(** [this.observer(lat, lon)]. *)
Definition observer (this : Planet) (lat lon : R) : Observer :=
  new_Observer this lat lon.

(** ** The objects the loop of [riseset] passes through

    [visits cls lat lon direction sin_lat cos_lat sin_h0 this this'] holds
    when the loop, entered with [this], evaluates its body at [this']: at
    [this] itself, and at each object that [this.setTime(riseset)] leaves
    after a pass that ends in [continue]. *)
Inductive visits (cls : Class)
    (lat lon direction sin_lat cos_lat sin_h0 : R) : Planet -> Planet -> Prop :=
| visits_entry (this : Planet) :
    visits cls lat lon direction sin_lat cos_lat sin_h0 this this
| visits_iterate (this : Planet) (riseset : R) (fuel : nat)
    (this' this'' : Planet) :
    riseset_pass lat lon direction sin_lat cos_lat sin_h0 this = Iterate riseset ->
    setTime cls fuel riseset = Some this' ->
    visits cls lat lon direction sin_lat cos_lat sin_h0 this' this'' ->
    visits cls lat lon direction sin_lat cos_lat sin_h0 this this''.

(** The threshold of [Moon.rise] and [Moon.set] for a given object. *)
Definition Moon_h0 (this : Planet) : R :=
  -0.583 - parallax (distance this).

(** ** Kepler's equation

    The quantities [dM] and [dE] of one pass of the loop of
    [Planet.setTime], as functions of the [E] the pass starts from. *)
Definition kepler_dM (M e E : R) : R :=
  M - (E - e * Math.sin E).

Definition kepler_dE (M e E : R) : R :=
  kepler_dM M e E / (1 - e * Math.cos E).

(** The part of the first half of the orbit right of the root: [E] lies
    between [M] and PI and [E - e sin E] is at least [M]. *)
Definition kepler_region (M e E : R) : Prop :=
  M <= E <= PI /\ kepler_dM M e E <= 0.

(** The mean anomaly [λ - π] that [Moon.setTime(time)] starts from. *)
Definition Moon_M (time : R) : R :=
  3.455090 + 2661707199e-18 * time - (5.282226 + 22504146e-18 * time).

(** The argument of [Math.asin] in [declination]. *)
Definition sin_declination (this : Planet) : R :=
  (y this * Math.sin (obliquity (time this))
   + z this * Math.cos (obliquity (time this))) / distance this.

(** ** Example objects *)

(** An object one AU from the origin along the first axis, at time 0.  Its
    second coordinate is written [- 0]: in JavaScript it is the value -0,
    for which [- this.y] is +0 and both calls of [Math.atan2], in
    [longitude] and in [right_ascension], are [Math.atan2(+0, -1)]. *)
Definition on_axis : Planet :=
  {| time := 0; x := 1; y := - 0; z := 0 |}.

(** A subclass whose elements are constant: a circular orbit of radius 1
    with all angles 0.  Its [setTime] puts the body at the same place at
    every time, as a fixed star on the first axis. *)
Definition fixed_star : Class :=
  Subclass (fun _ => (1, 0, 0, 0, 0, 0)).

Definition star_at (t : R) : Planet :=
  {| time := t; x := 1; y := 0; z := 0 |}.



(** * The arithmetic in binary64

    The expressions of the source whose rounding the claims meet, on the
    binary64 numbers of the kernel.  [+], [-], [*], [/] and [Math.sqrt]
    are the IEEE 754 operations, a literal is the nearest binary64 number,
    a comparison with NaN is false.  ECMAScript leaves the last digit of
    [Math.sin], [Math.cos], [Math.asin], [Math.acos] and [Math.atan2] to
    the host, so an expression that calls them is embedded as a function
    of the values the calls return, and a method as a function of the
    values it reads from [this]. *)
Module Binary64.

#[local] Set Warnings "-inexact-float".
Local Open Scope float_scope.

(** [Math.PI]. *)
Definition PI : float := 3.141592653589793.

(** [Math.floor]: a number from 2^52 on is an integer; below, the integer
    part of [m * 2^e], rounded down, is exact. *)
Definition floor (v : float) : float :=
  match Prim2SF v with
  | S754_finite s m e =>
      if (0 <=? e)%Z then v
      else
        let n := Z.shiftr (if s then Z.neg m else Z.pos m) (- e) in
        if (n <? 0)%Z then - of_uint63 (Uint63.of_Z (- n))
        else of_uint63 (Uint63.of_Z n)
  | _ => v
  end.

(* hours *)
Definition gmst (time : float) : float :=
  6.699851 + 278538308153e-18 * time.

(** [Planet.hour_angle(lon)], of the field [this.time] and of the value
    of the getter [this.right_ascension]. *)
Definition hour_angle (time right_ascension lon : float) : float :=
  let ha := gmst time + lon * (1 / 15) - right_ascension in
  ha - floor (ha / 24) * 24.

(** [Planet.transit(lat, lon)]. *)
Definition transit (time right_ascension lat lon : float) : float :=
  let ha := hour_angle time right_ascension lon in
  let ha := if 12 <? ha then ha - 24 else ha in
  time - 3590170.4 * ha.

(** The constructor of [Observer]: [sin_altitude] of the five sines and
    cosines it is computed from, [cos_altitude] of [sin_altitude], and
    [altitude] of the values of [Math.asin(sin_altitude)] and of
    [parallax(planet.distance)] and of [cos_altitude]. *)
Definition sin_altitude (sin_lat cos_lat sin_dec cos_dec cos_ha : float)
    : float :=
  sin_lat * sin_dec + cos_lat * cos_dec * cos_ha.

Definition cos_altitude (sin_altitude : float) : float :=
  PrimFloat.sqrt (1 - sin_altitude * sin_altitude).

Definition altitude (asin_sin_altitude parallax_distance cos_altitude : float)
    : float :=
  asin_sin_altitude * (180 / PI) - parallax_distance * cos_altitude.

(** The eccentricity that [Sun.setTime(time)] passes to [super.setTime]. *)
Definition Sun_e (time : float) : float :=
  0.016721 - 13e-18 * time.

(** [v] and [z] of [Planet.setTime], of the values of [Math.sin] and
    [Math.cos] they are computed from. *)
Definition setTime_v (a e sin_E : float) : float :=
  a * PrimFloat.sqrt (1 - e * e) * sin_E.

Definition setTime_z (u v sin_w cos_w sin_i : float) : float :=
  u * (sin_w * sin_i) + v * (cos_w * sin_i).

End Binary64.
(** * Properties *)

(** ** Arithmetic of the helpers *)

Lemma floor_bound (v : R) : Math.floor v <= v < Math.floor v + 1.
Proof. unfold Math.floor. apply Zfloor_bound. Qed.

Lemma wrap24_range (ha : R) : 0 <= ha - Math.floor (ha / 24) * 24 < 24.
Proof.
  pose proof (floor_bound (ha / 24)) as [Hlo Hhi].
  lra.
Qed.





(** ** The accessors *)



Lemma atan2_negative_axis (p : R) : p < 0 -> Math.atan2 0 p = Math.PI.
Proof.
  intros Hp. unfold Math.atan2.
  destruct (Rlt_dec 0 p); [lra |].
  destruct (Rlt_dec p 0); [| lra].
  destruct (Rle_dec 0 0); [| lra].
  unfold Rdiv. rewrite Rmult_0_l, atan_0. lra.
Qed.

Lemma half_turn_scaled (half : R) : Math.PI * (half / Math.PI) + half = 2 * half.
Proof. unfold Math.PI. pose proof PI_RGT_0. field. lra. Qed.



Lemma hour_angle_range (this : Planet) (lon : R) : 0 <= hour_angle this lon < 24.
Proof. unfold hour_angle. cbv zeta. apply wrap24_range. Qed.

(** ** The loops and their fuel *)

Lemma kepler_fuel_mono (fuel fuel' : nat) (M e E E' : R) :
  (fuel <= fuel')%nat ->
  kepler fuel M e E = Some E' -> kepler fuel' M e E = Some E'.
Proof.
  revert fuel' E. induction fuel as [| fuel IH]; intros fuel' E Hle.
  - discriminate.
  - destruct fuel' as [| fuel']; [lia |].
    cbn [kepler]. cbv zeta.
    destruct (Rle_dec _ _); [trivial |].
    apply IH. lia.
Qed.

Lemma Planet_setTime_fuel_mono (fuel fuel' : nat) (t a e i λ π Ω : R)
    (this : Planet) :
  (fuel <= fuel')%nat ->
  Planet_setTime fuel t a e i λ π Ω = Some this ->
  Planet_setTime fuel' t a e i λ π Ω = Some this.
Proof.
  intros Hle. unfold Planet_setTime. cbv zeta.
  destruct (kepler fuel _ _ _) as [E |] eqn:HE; [| discriminate].
  rewrite (kepler_fuel_mono fuel fuel' _ _ _ E Hle HE). trivial.
Qed.

Lemma setTime_fuel_mono (cls : Class) (fuel fuel' : nat) (t : R)
    (this : Planet) :
  (fuel <= fuel')%nat ->
  setTime cls fuel t = Some this -> setTime cls fuel' t = Some this.
Proof.
  intros Hle. destruct cls as [| | elements]; cbn [setTime].
  - apply Planet_setTime_fuel_mono, Hle.
  - apply Planet_setTime_fuel_mono, Hle.
  - destruct (elements t) as [[[[[a e] i] λ] π] Ω].
    apply Planet_setTime_fuel_mono, Hle.
Qed.


Lemma riseset_loop_fuel_mono (cls : Class) (fuel fuel' : nat)
    (lat lon direction time_ x_ y_ z_ sin_lat cos_lat sin_h0 : R)
    (this : Planet) (out : number * Planet) :
  (fuel <= fuel')%nat ->
  riseset_loop cls fuel lat lon direction time_ x_ y_ z_
    sin_lat cos_lat sin_h0 this = Some out ->
  riseset_loop cls fuel' lat lon direction time_ x_ y_ z_
    sin_lat cos_lat sin_h0 this = Some out.
Proof.
  revert fuel' this. induction fuel as [| fuel IH]; intros fuel' this Hle.
  - discriminate.
  - destruct fuel' as [| fuel']; [lia |].
    cbn [riseset_loop].
    destruct (riseset_pass _ _ _ _ _ _ this) as [| t | t]; trivial.
    destruct (setTime cls fuel t) as [this' |] eqn:Hset; [| discriminate].
    rewrite (setTime_fuel_mono cls fuel fuel' t this') by (lia || assumption).
    apply IH. lia.
Qed.

Lemma riseset_fuel_mono (cls : Class) (fuel fuel' : nat) (this : Planet)
    (lat lon h0 direction : R) (out : number * Planet) :
  (fuel <= fuel')%nat ->
  riseset cls fuel this lat lon h0 direction = Some out ->
  riseset cls fuel' this lat lon h0 direction = Some out.
Proof. unfold riseset. cbv zeta. apply riseset_loop_fuel_mono. Qed.

(** ** The state of the object across [riseset] *)

Lemma restore_all (this : Planet) (time_ x_ y_ z_ : R) :
  restore this time_ x_ y_ z_ = {| time := time_; x := x_; y := y_; z := z_ |}.
Proof. reflexivity. Qed.

Lemma riseset_loop_restores (cls : Class) (fuel : nat)
    (lat lon direction time_ x_ y_ z_ sin_lat cos_lat sin_h0 : R)
    (this : Planet) (result : number) (this' : Planet) :
  riseset_loop cls fuel lat lon direction time_ x_ y_ z_
    sin_lat cos_lat sin_h0 this = Some (result, this') ->
  this' = {| time := time_; x := x_; y := y_; z := z_ |}.
Proof.
  revert this. induction fuel as [| fuel IH]; intros this; cbn [riseset_loop].
  - discriminate.
  - destruct (riseset_pass _ _ _ _ _ _ this) as [| t | t].
    + rewrite restore_all. now intros [= _ <-].
    + rewrite restore_all. now intros [= _ <-].
    + destruct (setTime cls fuel t) as [this1 |]; [apply IH | discriminate].
Qed.

Lemma riseset_restores (cls : Class) (fuel : nat) (this : Planet)
    (lat lon h0 direction : R) (result : number) (this' : Planet) :
  riseset cls fuel this lat lon h0 direction = Some (result, this') ->
  this' = this.
Proof.
  unfold riseset. cbv zeta. intros H.
  apply riseset_loop_restores in H. subst this'. now destruct this.
Qed.

(** ** Runs of the solver on [on_axis] *)

Lemma degrees_0 : 0 * (Math.PI / 180) = 0.
Proof. apply Rmult_0_l. Qed.

Lemma degrees_90 : 90 * (Math.PI / 180) = PI / 2.
Proof. unfold Math.PI. field. Qed.

Lemma degrees_60 : 60 * (Math.PI / 180) = PI / 3.
Proof. unfold Math.PI. field. Qed.




Lemma distance_on_axis : distance on_axis = 1.
Proof.
  unfold distance, on_axis, Math.sqrt; cbn [x y z].
  replace (1 * 1 + - 0 * - 0 + 0 * 0) with 1 by ring.
  apply sqrt_1.
Qed.

Lemma declination_on_axis : declination on_axis = 0.
Proof.
  unfold declination. cbv zeta. rewrite distance_on_axis.
  unfold on_axis, Math.asin; cbn [x y z time].
  replace ((- 0 * Math.sin (obliquity 0) + 0 * Math.cos (obliquity 0)) / 1)
    with 0 by field.
  rewrite asin_0. ring.
Qed.


Lemma cos_lha_on_axis (sin_lat cos_lat sin_h0 : R) :
  cos_lha sin_lat cos_lat sin_h0 on_axis = sin_h0 / cos_lat.
Proof.
  unfold cos_lha. cbv zeta. rewrite declination_on_axis, degrees_0.
  unfold Math.sin, Math.cos. rewrite sin_0, cos_0.
  now rewrite Rmult_0_r, Rminus_0_r, Rmult_1_r.
Qed.

(** At latitude 60 no point of the sky reaches an altitude of 90 degrees
    while [on_axis] has declination 0: the first pass bails out. *)
Lemma riseset_on_axis_bails (cls : Class) (lon direction : R) :
  riseset cls 1 on_axis 60 lon 90 direction = Some (NaN, on_axis).
Proof.
  unfold riseset. cbv zeta. cbn [riseset_loop]. unfold riseset_pass. cbv zeta.
  rewrite cos_lha_on_axis, degrees_90, degrees_60.
  unfold Math.sin, Math.cos, Math.abs. rewrite sin_PI2, cos_PI3.
  replace (1 / (1 / 2)) with 2 by field.
  destruct (Rgt_dec (Rabs 2) 1) as [_ | Hn]; [reflexivity |].
  exfalso. apply Hn. rewrite Rabs_pos_eq; lra.
Qed.


(** ** The no-event exit of [riseset] *)


Section Loop.

Variable cls : Class.
Variables lat lon direction time_ x_ y_ z_ sin_lat cos_lat sin_h0 : R.

Let loop (fuel : nat) (this : Planet) :=
  riseset_loop cls fuel lat lon direction time_ x_ y_ z_
    sin_lat cos_lat sin_h0 this.
Let pass_at (this : Planet) :=
  riseset_pass lat lon direction sin_lat cos_lat sin_h0 this.
Let reaches (this this' : Planet) :=
  visits cls lat lon direction sin_lat cos_lat sin_h0 this this'.

(** A run that returns ends at an object it visits, with the exit of the
    pass made there. *)
Lemma riseset_loop_exit (fuel : nat) (this : Planet) (result : number)
    (this' : Planet) :
  loop fuel this = Some (result, this') ->
  exists last : Planet,
    reaches this last /\
    ((pass_at last = Bail /\ result = NaN) \/
     (exists v : R, pass_at last = Accept v /\ result = Num v)).
Proof.
  subst loop pass_at reaches. cbv beta.
  revert this. induction fuel as [| fuel IH]; intros this;
    cbn [riseset_loop].
  - discriminate.
  - destruct (riseset_pass _ _ _ _ _ _ this) as [| v | t] eqn:Hpass.
    + intros [= <- _]. exists this. split; [constructor | now left].
    + intros [= <- _]. exists this. split; [constructor |].
      right. now exists v.
    + destruct (setTime cls fuel t) as [this1 |] eqn:Hset;
        [| discriminate].
      intros H. destruct (IH this1 H) as (last & Hvis & Hexit).
      exists last. split; [| exact Hexit].
      eapply visits_iterate; eassumption.
Qed.



End Loop.


(** ** Sines and cosines *)

Lemma sin_abs_le (v : R) : Rabs (sin v) <= Rabs v.
Proof.
  assert (Hpos : forall u, 0 < u -> Rabs (sin u) <= u).
  { intros u Hu. apply Rabs_le. split.
    - destruct (Rlt_dec u 1) as [Hu1 | Hu1].
      + pose proof PI2_1. pose proof (sin_gt_0 u Hu ltac:(lra)). lra.
      + pose proof (SIN_bound u). lra.
    - left. now apply sin_lt_x. }
  destruct (Rtotal_order v 0) as [Hv | [-> | Hv]].
  - rewrite <- (Ropp_involutive v) at 1. rewrite sin_neg, Rabs_Ropp.
    rewrite (Rabs_left v Hv). apply Hpos. lra.
  - rewrite sin_0, Rabs_R0. lra.
  - rewrite (Rabs_pos_eq v) by lra. now apply Hpos.
Qed.

Lemma cos_lipschitz (p q : R) : Rabs (cos p - cos q) <= Rabs (p - q).
Proof.
  rewrite form2, !Rabs_mult.
  pose proof (sin_abs_le ((p - q) / 2)) as H1.
  pose proof (SIN_bound ((p + q) / 2)) as H2.
  assert (H3 : Rabs (sin ((p + q) / 2)) <= 1) by (apply Rabs_le; lra).
  replace (Rabs (-2)) with 2 by (rewrite Rabs_left; lra).
  assert (H4 : Rabs ((p - q) / 2) = Rabs (p - q) / 2).
  { unfold Rdiv. rewrite Rabs_mult. f_equal. apply Rabs_pos_eq. lra. }
  rewrite H4 in H1.
  pose proof (Rabs_pos (sin ((p - q) / 2))).
  pose proof (Rabs_pos (sin ((p + q) / 2))).
  nra.
Qed.

Lemma sin_lipschitz (p q : R) : Rabs (sin p - sin q) <= Rabs (p - q).
Proof.
  rewrite form4, !Rabs_mult.
  pose proof (sin_abs_le ((p - q) / 2)) as H1.
  pose proof (COS_bound ((p + q) / 2)) as H2.
  assert (H3 : Rabs (cos ((p + q) / 2)) <= 1) by (apply Rabs_le; lra).
  replace (Rabs 2) with 2 by (rewrite Rabs_pos_eq; lra).
  assert (H4 : Rabs ((p - q) / 2) = Rabs (p - q) / 2).
  { unfold Rdiv. rewrite Rabs_mult. f_equal. apply Rabs_pos_eq. lra. }
  rewrite H4 in H1.
  pose proof (Rabs_pos (sin ((p - q) / 2))).
  pose proof (Rabs_pos (cos ((p + q) / 2))).
  nra.
Qed.

Lemma sin_second_order (E d : R) :
  Rabs (sin (E + d) - sin E - d * cos E) <= d * d.
Proof.
  assert (Hmvt : forall p q, p < q ->
            exists c, sin q - sin p = cos c * (q - p) /\ p < c < q).
  { intros p q Hpq. apply MVT_cor2; [exact Hpq |].
    intros c _. apply derivable_pt_lim_sin. }
  destruct (Rtotal_order d 0) as [Hd | [-> | Hd]].
  - destruct (Hmvt (E + d) E ltac:(lra)) as (c & Hc & Hlo & Hhi).
    replace (sin (E + d) - sin E - d * cos E) with (d * (cos c - cos E))
      by (replace (sin (E + d)) with (sin E - cos c * (E - (E + d))) by lra;
          ring).
    rewrite Rabs_mult, (Rabs_left d Hd).
    pose proof (cos_lipschitz c E) as HL.
    rewrite (Rabs_left (c - E)) in HL by lra.
    pose proof (Rabs_pos (cos c - cos E)). nra.
  - rewrite Rplus_0_r. replace (sin E - sin E - 0 * cos E) with 0 by ring.
    rewrite Rabs_R0. lra.
  - destruct (Hmvt E (E + d) ltac:(lra)) as (c & Hc & Hlo & Hhi).
    replace (sin (E + d) - sin E - d * cos E) with (d * (cos c - cos E))
      by (rewrite Hc; ring).
    rewrite Rabs_mult, (Rabs_pos_eq d) by lra.
    pose proof (cos_lipschitz c E) as HL.
    rewrite (Rabs_pos_eq (c - E)) in HL by lra.
    pose proof (Rabs_pos (cos c - cos E)). nra.
Qed.

(** ** Newton's iteration for Kepler's equation *)

Lemma abs_le_inv (v bound : R) : Rabs v <= bound -> - bound <= v <= bound.
Proof. unfold Rabs. destruct (Rcase_abs v); lra. Qed.

Lemma square_le (d bound : R) :
  Rabs d <= bound -> d * d <= bound * bound.
Proof. unfold Rabs. destruct (Rcase_abs d); nra. Qed.

Lemma div_le_bound (num den bound : R) :
  0 < den -> num <= bound * den -> num / den <= bound.
Proof.
  intros Hden Hnum. apply (Rmult_le_reg_r den); [exact Hden |].
  replace (num / den * den) with num by (field; lra). exact Hnum.
Qed.

Lemma kepler_unfold (fuel : nat) (M e E : R) :
  kepler (S fuel) M e E
  = if Rle_dec (Rabs (kepler_dE M e E)) 1e-8
    then Some (E + kepler_dE M e E)
    else kepler fuel M e (E + kepler_dE M e E).
Proof. reflexivity. Qed.

Lemma kepler_denominator (e E : R) :
  Rabs e < 1 -> 1 - Rabs e <= 1 - e * Math.cos E.
Proof.
  unfold Math.cos. intros He.
  pose proof (COS_bound E) as [Hlo Hhi].
  unfold Rabs in *. destruct (Rcase_abs e); nra.
Qed.

(** After a step the residual is of second order in the step. *)
Lemma kepler_dM_next (M e E : R) :
  Rabs e < 1 ->
  Rabs (kepler_dM M e (E + kepler_dE M e E))
  <= Rabs e * (kepler_dE M e E * kepler_dE M e E).
Proof.
  intros He.
  pose proof (kepler_denominator e E He) as Hden.
  pose proof (Rabs_pos e) as He0.
  set (d := kepler_dE M e E).
  assert (Hd : kepler_dM M e E = d * (1 - e * Math.cos E)).
  { subst d. unfold kepler_dE. field. lra. }
  assert (Heq : kepler_dM M e (E + d)
                = e * (sin (E + d) - sin E - d * cos E)).
  { unfold kepler_dM in *. unfold Math.sin, Math.cos in *. lra. }
  rewrite Heq, Rabs_mult.
  apply Rmult_le_compat_l; [exact He0 | apply sin_second_order].
Qed.

Lemma kepler_dE_le (M e E bound : R) :
  Rabs e < 1 -> Rabs (kepler_dM M e E) <= bound ->
  Rabs (kepler_dE M e E) <= bound / (1 - Rabs e).
Proof.
  intros He Hb.
  pose proof (kepler_denominator e E He) as Hden.
  unfold kepler_dE, Rdiv. rewrite Rabs_mult, Rabs_inv.
  rewrite (Rabs_pos_eq (1 - e * Math.cos E)) by lra.
  pose proof (Rabs_pos (kepler_dM M e E)) as H0.
  assert (Hinv : / (1 - e * Math.cos E) <= / (1 - Rabs e))
    by (apply Rinv_le_contravar; lra).
  assert (0 < / (1 - e * Math.cos E)) by (apply Rinv_0_lt_compat; lra).
  assert (0 < / (1 - Rabs e)) by (apply Rinv_0_lt_compat; lra).
  nra.
Qed.

(** Whatever the fuel, the [E] the loop ends with solves Kepler's equation
    up to [|e| * 1e-16]. *)
Lemma kepler_result_residual (fuel : nat) (M e E0 E : R) :
  Rabs e < 1 -> kepler fuel M e E0 = Some E ->
  Rabs (kepler_dM M e E) <= Rabs e * (1e-8 * 1e-8).
Proof.
  intros He. revert E0. induction fuel as [| fuel IH]; intros E0.
  - discriminate.
  - rewrite kepler_unfold.
    destruct (Rle_dec _ _) as [Hstop | _]; [| apply IH].
    intros [= <-].
    eapply Rle_trans; [apply kepler_dM_next, He |].
    apply Rmult_le_compat_l; [apply Rabs_pos |].
    now apply square_le.
Qed.

Lemma kepler_seed_dM (M e : R) :
  Rabs (kepler_dM M e (M + e * Math.sin M)) <= Rabs e * Rabs e.
Proof.
  unfold kepler_dM, Math.sin.
  replace (M - (M + e * sin M - e * sin (M + e * sin M)))
    with (e * (sin (M + e * sin M) - sin M)) by ring.
  rewrite Rabs_mult. apply Rmult_le_compat_l; [apply Rabs_pos |].
  eapply Rle_trans; [apply sin_lipschitz |].
  replace (M + e * sin M - M) with (e * sin M) by ring.
  rewrite Rabs_mult.
  pose proof (SIN_bound M) as HS.
  assert (Rabs (sin M) <= 1) by (apply Rabs_le; lra).
  pose proof (Rabs_pos e). pose proof (Rabs_pos (sin M)). nra.
Qed.

Lemma kepler_seed_dE (M e : R) :
  Rabs e <= 1 / 10 -> Rabs (kepler_dE M e (M + e * Math.sin M)) <= 1 / 90.
Proof.
  intros He.
  pose proof (Rabs_pos e) as He0.
  eapply Rle_trans.
  - apply kepler_dE_le; [lra | apply kepler_seed_dM].
  - apply div_le_bound; [lra |]. nra.
Qed.

Lemma kepler_dE_next (M e E : R) :
  Rabs e <= 1 / 10 ->
  Rabs (kepler_dE M e (E + kepler_dE M e E))
  <= kepler_dE M e E * kepler_dE M e E / 9.
Proof.
  intros He.
  pose proof (Rabs_pos e) as He0.
  pose proof (Rle_0_sqr (kepler_dE M e E)) as Hsq. unfold Rsqr in Hsq.
  eapply Rle_trans.
  - apply kepler_dE_le; [lra | apply kepler_dM_next; lra].
  - apply div_le_bound; [lra |]. nra.
Qed.

(** For an eccentricity of at most 1/10 in absolute value the loop ends
    within three passes, whatever the mean anomaly. *)
Lemma kepler_returns (M e : R) :
  Rabs e <= 1 / 10 ->
  exists E : R, kepler 3 M e (M + e * Math.sin M) = Some E.
Proof.
  intros He.
  set (E0 := M + e * Math.sin M).
  pose proof (kepler_seed_dE M e He) as H0. fold E0 in H0.
  rewrite kepler_unfold.
  destruct (Rle_dec _ _) as [_ | _]; [eexists; reflexivity |].
  set (E1 := E0 + kepler_dE M e E0).
  pose proof (kepler_dE_next M e E0 He) as H1. fold E1 in H1.
  pose proof (square_le _ _ H0) as Hs0.
  rewrite kepler_unfold.
  destruct (Rle_dec _ _) as [_ | _]; [eexists; reflexivity |].
  set (E2 := E1 + kepler_dE M e E1).
  pose proof (kepler_dE_next M e E1 He) as H2. fold E2 in H2.
  assert (H1' : Rabs (kepler_dE M e E1) <= 1 / 72900) by lra.
  pose proof (square_le _ _ H1') as Hs1.
  rewrite kepler_unfold.
  destruct (Rle_dec _ _) as [_ | Hn]; [eexists; reflexivity |].
  exfalso. apply Hn. lra.
Qed.

(** ** The position [Planet.setTime] computes *)

Lemma Planet_setTime_inv (fuel : nat) (t a e i λ π Ω : R) (this : Planet) :
  Planet_setTime fuel t a e i λ π Ω = Some this ->
  exists E : R,
    kepler fuel (λ - π) e (λ - π + e * Math.sin (λ - π)) = Some E /\
    time this = t /\
    x this = a * (Math.cos E - e)
             * (Math.cos (π - Ω) * Math.cos Ω
                - Math.sin (π - Ω) * Math.sin Ω * Math.cos i)
             + a * Math.sqrt (1 - e * e) * Math.sin E
               * (- Math.sin (π - Ω) * Math.cos Ω
                  - Math.cos (π - Ω) * Math.sin Ω * Math.cos i) /\
    y this = a * (Math.cos E - e)
             * (Math.cos (π - Ω) * Math.sin Ω
                + Math.sin (π - Ω) * Math.cos Ω * Math.cos i)
             + a * Math.sqrt (1 - e * e) * Math.sin E
               * (- Math.sin (π - Ω) * Math.sin Ω
                  + Math.cos (π - Ω) * Math.cos Ω * Math.cos i) /\
    z this = a * (Math.cos E - e) * (Math.sin (π - Ω) * Math.sin i)
             + a * Math.sqrt (1 - e * e) * Math.sin E
               * (Math.cos (π - Ω) * Math.sin i).
Proof.
  unfold Planet_setTime. cbv zeta.
  destruct (kepler fuel _ _ _) as [E |]; [| discriminate].
  intros [= <-]. exists E. cbn [time x y z]. repeat split.
Qed.

Lemma Planet_setTime_returns (t a e i λ π Ω : R) :
  Rabs e <= 1 / 10 ->
  exists this : Planet, Planet_setTime 3 t a e i λ π Ω = Some this.
Proof.
  intros He. unfold Planet_setTime. cbv zeta.
  destruct (kepler_returns (λ - π) e He) as [E ->]. eexists; reflexivity.
Qed.

(** ** Construction of the Sun and of the Moon *)

Lemma moon_returns (t : R) : exists this : Planet, moon 3 t = Some this.
Proof.
  unfold moon, setTime, Moon_setTime.
  apply Planet_setTime_returns. apply Rabs_le. lra.
Qed.

Lemma sun_z (fuel : nat) (t : R) (this : Planet) :
  sun fuel t = Some this -> z this = 0.
Proof.
  unfold sun, setTime, Sun_setTime. intros H.
  apply Planet_setTime_inv in H as (E & _ & _ & _ & _ & ->).
  unfold Math.sin. rewrite sin_0. ring.
Qed.

Lemma latitude_of_z_0 (this : Planet) : z this = 0 -> latitude this = 0.
Proof.
  intros Hz. unfold latitude, Math.asin. rewrite Hz.
  unfold Rdiv. rewrite Rmult_0_l, asin_0. ring.
Qed.

(** ** The observer at the point below the body *)

Lemma altitude_at_zenith (planet : Planet) (lon : R) :
  hour_angle planet lon = 0 ->
  altitude (new_Observer planet (declination planet) lon) = 90.
Proof.
  intros Hha. unfold new_Observer. cbv zeta. cbn [altitude].
  rewrite Hha, Rmult_0_l.
  unfold Math.sin, Math.cos, Math.sqrt, Math.asin, Math.PI.
  rewrite cos_0.
  set (d := declination planet * (PI / 180)).
  assert (Hone : sin d * sin d + cos d * cos d * 1 = 1).
  { pose proof (sin2_cos2 d) as H. unfold Rsqr in H. lra. }
  rewrite Hone.
  replace (1 - 1 * 1) with 0 by ring.
  rewrite sqrt_0, asin_1, Rmult_0_r.
  pose proof PI_RGT_0. field. lra.
Qed.

(** ** Geometry of the computed position *)

Lemma rotation_norm (u v si ci sO cO sw cw : R) :
  si * si + ci * ci = 1 -> sO * sO + cO * cO = 1 -> sw * sw + cw * cw = 1 ->
  (u * (cw * cO - sw * sO * ci) + v * (- sw * cO - cw * sO * ci))
  * (u * (cw * cO - sw * sO * ci) + v * (- sw * cO - cw * sO * ci))
  + (u * (cw * sO + sw * cO * ci) + v * (- sw * sO + cw * cO * ci))
    * (u * (cw * sO + sw * cO * ci) + v * (- sw * sO + cw * cO * ci))
  + (u * (sw * si) + v * (cw * si)) * (u * (sw * si) + v * (cw * si))
  = u * u + v * v.
Proof. intros Hi HO Hw. nsatz. Qed.

Lemma ellipse_radius (a e s sE cE : R) :
  s * s = 1 - e * e -> sE * sE + cE * cE = 1 ->
  a * (cE - e) * (a * (cE - e)) + a * s * sE * (a * s * sE)
  = a * (1 - e * cE) * (a * (1 - e * cE)).
Proof. intros Hs HE. nsatz. Qed.

Lemma sin_cos_square (v : R) : sin v * sin v + cos v * cos v = 1.
Proof. pose proof (sin2_cos2 v) as H. unfold Rsqr in H. exact H. Qed.

Lemma abs_le_of_square (v bound : R) :
  0 <= bound -> v * v <= bound * bound -> Rabs v <= bound.
Proof. intros Hb Hsq. apply Rabs_le. split; nra. Qed.

Lemma Planet_setTime_geometry (fuel : nat) (t a e i λ π Ω : R)
    (this : Planet) :
  Planet_setTime fuel t a e i λ π Ω = Some this ->
  0 <= a -> Rabs e < 1 ->
  exists E : R,
    kepler fuel (λ - π) e (λ - π + e * Math.sin (λ - π)) = Some E /\
    time this = t /\
    distance this = a * (1 - e * cos E) /\
    Rabs (y this) <= distance this /\
    Rabs (z this) <= Rabs (sin i) * distance this.
Proof.
  intros Hset Ha He.
  apply Planet_setTime_inv in Hset as (E & HE & Ht & Hx & Hy & Hz).
  exists E. split; [exact HE |]. split; [exact Ht |].
  unfold Math.sin, Math.cos, Math.sqrt in *.
  set (u := a * (cos E - e)) in *.
  set (v := a * sqrt (1 - e * e) * sin E) in *.
  assert (He2 : 0 <= 1 - e * e).
  { unfold Rabs in He. destruct (Rcase_abs e); nra. }
  assert (Hden : 0 <= 1 - e * cos E).
  { pose proof (kepler_denominator e E He) as H. unfold Math.cos in H.
    pose proof (Rabs_pos e). lra. }
  assert (Hnorm : x this * x this + y this * y this + z this * z this
                  = u * u + v * v).
  { rewrite Hx, Hy, Hz.
    apply rotation_norm; apply sin_cos_square. }
  assert (Hrad : u * u + v * v
                 = a * (1 - e * cos E) * (a * (1 - e * cos E))).
  { subst u v. apply ellipse_radius; [| apply sin_cos_square].
    apply sqrt_sqrt, He2. }
  assert (Hd : distance this = a * (1 - e * cos E)).
  { unfold distance, Math.sqrt. rewrite Hnorm, Hrad.
    apply sqrt_square. nra. }
  assert (Hd0 : 0 <= distance this) by (rewrite Hd; nra).
  assert (Hdd : distance this * distance this
                = x this * x this + y this * y this + z this * z this).
  { rewrite Hnorm, Hrad, Hd. ring. }
  split; [exact Hd |]. split.
  - apply abs_le_of_square; [exact Hd0 |]. rewrite Hdd.
    pose proof (Rle_0_sqr (x this)) as H1.
    pose proof (Rle_0_sqr (z this)) as H2. unfold Rsqr in *. lra.
  - apply abs_le_of_square.
    + pose proof (Rabs_pos (sin i)). nra.
    + replace (Rabs (sin i) * distance this * (Rabs (sin i) * distance this))
        with (sin i * sin i * (distance this * distance this)).
      2:{ assert (Hs : Rabs (sin i) * Rabs (sin i) = sin i * sin i)
            by (unfold Rabs; destruct (Rcase_abs (sin i)); ring).
          rewrite <- Hs. ring. }
      rewrite Hdd, Hnorm, Hz.
      set (sw := sin (π - Ω)) in *. set (cw := cos (π - Ω)) in *.
      assert (Hw : sw * sw + cw * cw = 1) by apply sin_cos_square.
      replace ((u * (sw * sin i) + v * (cw * sin i))
               * (u * (sw * sin i) + v * (cw * sin i)))
        with (sin i * sin i * ((u * sw + v * cw) * (u * sw + v * cw)))
        by ring.
      apply Rmult_le_compat_l; [apply (Rle_0_sqr (sin i)) |].
      pose proof (Rle_0_sqr (u * cw - v * sw)) as Hsq. unfold Rsqr in Hsq.
      nra.
Qed.

(** ** The Moon *)

Lemma moon_geometry (fuel : nat) (t : R) (this : Planet) :
  moon fuel t = Some this ->
  exists E : R,
    Rabs (E - Moon_M t) <= 0.0556 /\
    Rabs (Moon_M t - (E - 0.055546 * sin E)) <= 1e-16 /\
    time this = t /\
    distance this = 0.002563 * (1 - 0.055546 * cos E) /\
    0.00242 <= distance this <= 0.00271 /\
    Rabs (y this) <= distance this /\
    Rabs (z this) <= 0.090001 * distance this.
Proof.
  unfold moon, setTime, Moon_setTime. intros Hset.
  assert (He : Rabs 0.055546 < 1) by (rewrite Rabs_pos_eq; lra).
  apply Planet_setTime_geometry in Hset
    as (E & HE & Ht & Hd & Hy & Hz); [| lra | exact He].
  fold (Moon_M t) in HE.
  pose proof (kepler_result_residual _ _ _ _ _ He HE) as Hres.
  unfold kepler_dM, Math.sin in Hres.
  rewrite (Rabs_pos_eq 0.055546) in Hres by lra.
  pose proof (SIN_bound E) as HsE. pose proof (COS_bound E) as HcE.
  exists E. repeat split; try assumption.
  - apply Rabs_le. apply abs_le_inv in Hres. split; nra.
  - lra.
  - rewrite Hd. nra.
  - rewrite Hd. nra.
  - eapply Rle_trans; [exact Hz |].
    apply Rmult_le_compat_r; [rewrite Hd; nra |].
    eapply Rle_trans; [apply sin_abs_le |]. rewrite Rabs_pos_eq; lra.
Qed.

Lemma declination_radians (this : Planet) :
  declination this * (Math.PI / 180) = asin (sin_declination this).
Proof.
  unfold declination, sin_declination, Math.asin, Math.PI. cbv zeta.
  pose proof PI_RGT_0. field. lra.
Qed.

Lemma moon_sin_declination (fuel : nat) (t : R) (this : Planet) :
  moon fuel t = Some this -> -1e9 <= t <= 1e9 ->
  Rabs (sin_declination this) <= 0.5101.
Proof.
  intros Hmoon Ht.
  destruct (moon_geometry _ _ _ Hmoon)
    as (E & _ & _ & Htime & _ & Hd & Hy & Hz).
  unfold sin_declination, Math.sin, Math.cos. rewrite Htime.
  set (ε := obliquity t).
  assert (Hε : 0 <= ε <= 0.42) by (subst ε; unfold obliquity; lra).
  assert (Hs : Rabs (sin ε) <= 0.42).
  { eapply Rle_trans; [apply sin_abs_le |]. rewrite Rabs_pos_eq; lra. }
  assert (Hc : Rabs (cos ε) <= 1).
  { apply Rabs_le. pose proof (COS_bound ε). lra. }
  apply abs_le_inv in Hs, Hc, Hy, Hz.
  apply Rabs_le. split.
  - apply Rle_trans with (- (0.5101 * distance this) / distance this);
      [right; field; lra |].
    unfold Rdiv. apply Rmult_le_compat_r;
      [left; apply Rinv_0_lt_compat; lra | nra].
  - apply div_le_bound; [lra | nra].
Qed.

Lemma cos_asin_lower (w : R) :
  Rabs w <= 0.5101 -> 0.86 <= cos (asin w).
Proof.
  intros Hw. apply abs_le_inv in Hw.
  rewrite cos_asin by lra.
  replace 0.86 with (sqrt (0.86 * 0.86)) by (apply sqrt_square; lra).
  apply sqrt_le_1_alt. unfold Rsqr. nra.
Qed.

(** The threshold of [Moon.rise] and [Moon.set], in radians, and its sine. *)
Lemma Moon_h0_range (fuel : nat) (t : R) (this : Planet) :
  moon fuel t = Some this ->
  -1.6 <= Moon_h0 this <= -1.4 /\
  - (PI / 2) < Moon_h0 this * (Math.PI / 180) < 0 /\
  -0.0356 <= sin (Moon_h0 this * (Math.PI / 180)) <= 0.
Proof.
  intros Hmoon.
  destruct (moon_geometry _ _ _ Hmoon) as (E & _ & _ & _ & _ & Hd & _).
  assert (Hh : -1.6 <= Moon_h0 this <= -1.4).
  { unfold Moon_h0, parallax.
    assert (0.9 <= 2443e-6 / distance this <= 1.01); [| lra].
    split.
    - apply Rmult_le_reg_r with (distance this); [lra |].
      replace (2443e-6 / distance this * distance this) with 2443e-6
        by (field; lra). nra.
    - apply div_le_bound; [lra | nra]. }
  split; [exact Hh |].
  pose proof PI_RGT_0 as Hpi. pose proof PI_4 as Hpi4.
  pose proof PI2_3_2 as Hpi3.
  unfold Math.PI.
  assert (Hr : -0.0356 <= Moon_h0 this * (PI / 180) < 0) by (split; nra).
  split; [lra |].
  split.
  - pose proof (sin_abs_le (Moon_h0 this * (PI / 180))) as Hs.
    rewrite (Rabs_left (Moon_h0 this * (PI / 180))) in Hs by lra.
    apply abs_le_inv in Hs. lra.
  - left. apply sin_lt_0_var; lra.
Qed.

Lemma transit_near (this : Planet) (lat lon : R) :
  Rabs (transit this lat lon - time this) <= 12 * 3590170.4.
Proof.
  unfold transit. cbv zeta.
  pose proof (hour_angle_range this lon) as [Hlo Hhi].
  destruct (Rgt_dec (hour_angle this lon) 12); apply Rabs_le; lra.
Qed.

Lemma acos_lower (c : R) : -1 <= c <= 1 -> 1 - c <= acos c.
Proof.
  intros Hc. pose proof (acos_bound c) as [H0 _].
  pose proof (cos_lipschitz (acos c) 0) as HL.
  rewrite cos_acos, cos_0, Rminus_0_r, (Rabs_pos_eq (acos c)) in HL
    by assumption.
  apply abs_le_inv in HL. lra.
Qed.

(** On the equator the first pass of the Moon's [rise] or of its [set]
    ends in [continue], with a candidate hours away from the Moon's time. *)
Lemma moon_first_pass (fuel : nat) (t : R) (this : Planet) (lon : R) :
  moon fuel t = Some this -> -1e9 <= t <= 1e9 ->
  exists direction v : R,
    (direction = -1 \/ direction = 1) /\
    riseset_pass 0 lon direction
      (Math.sin (0 * (Math.PI / 180))) (Math.cos (0 * (Math.PI / 180)))
      (Math.sin (Moon_h0 this * (Math.PI / 180))) this = Iterate v /\
    1e7 <= Rabs (v - t) <= 1e8.
Proof.
  intros Hmoon Ht.
  pose proof (moon_sin_declination _ _ _ Hmoon Ht) as Hw.
  pose proof (Moon_h0_range _ _ _ Hmoon) as (_ & _ & Hsh).
  pose proof (cos_asin_lower _ Hw) as Hcd.
  destruct (moon_geometry _ _ _ Hmoon) as (_ & _ & _ & Htime & _).
  set (sin_h0 := Math.sin (Moon_h0 this * (Math.PI / 180))).
  set (c := cos_lha (Math.sin (0 * (Math.PI / 180)))
              (Math.cos (0 * (Math.PI / 180))) sin_h0 this).
  assert (Hc : -0.05 <= c <= 0).
  { subst c. unfold cos_lha. cbv zeta.
    rewrite declination_radians, degrees_0.
    unfold Math.sin, Math.cos. rewrite sin_0, cos_0.
    rewrite Rmult_0_l, Rminus_0_r, Rmult_1_l.
    subst sin_h0. unfold Math.sin.
    set (sh := sin (Moon_h0 this * (Math.PI / 180))) in *.
    set (cd := cos (asin (sin_declination this))) in *.
    assert (Hinv : 0 < / cd <= 1.2).
    { split; [apply Rinv_0_lt_compat; lra |].
      apply Rle_trans with (/ 0.86); [apply Rinv_le_contravar; lra | lra]. }
    unfold Rdiv. generalize dependent (/ cd). intros k Hk.
    clearbody sh. clear - Hsh Hk. split; nra. }
  pose proof (acos_lower c ltac:(lra)) as Hα.
  pose proof (acos_bound c) as [_ Hαπ]. pose proof PI_4 as Hpi4.
  pose proof (transit_near this 0 lon) as HT. apply abs_le_inv in HT.
  rewrite Htime in HT.
  assert (Hpass : forall direction v : R,
            v = transit this 0 lon + 13713440.9 * direction * acos c ->
            60000 <= Rabs (v - t) ->
            riseset_pass 0 lon direction
              (Math.sin (0 * (Math.PI / 180)))
              (Math.cos (0 * (Math.PI / 180))) sin_h0 this = Iterate v).
  { intros direction v Hv Hfar. unfold riseset_pass. cbv zeta. fold c.
    unfold Math.abs, Math.acos.
    destruct (Rgt_dec (Rabs c) 1) as [Hgt | _].
    { exfalso. assert (Rabs c <= 1) by (apply Rabs_le; lra). lra. }
    rewrite <- Hv, Htime.
    destruct (Rge_dec (Rabs (v - t)) 60000) as [_ | Hn]; [reflexivity |].
    exfalso. apply Hn. lra. }
  destruct (Rle_dec t (transit this 0 lon)) as [Hge | Hlt].
  - exists 1, (transit this 0 lon + 13713440.9 * 1 * acos c).
    assert (Hv : 1e7 <= transit this 0 lon + 13713440.9 * 1 * acos c - t
                 <= 1e8) by (split; nra).
    rewrite Rabs_pos_eq by lra.
    split; [now right |]. split; [| exact Hv].
    apply Hpass; [reflexivity |]. rewrite Rabs_pos_eq; lra.
  - exists (-1), (transit this 0 lon + 13713440.9 * -1 * acos c).
    assert (Hv : -1e8 <= transit this 0 lon + 13713440.9 * -1 * acos c - t
                 <= -1e7) by (split; nra).
    rewrite Rabs_left by lra.
    split; [now left |]. split; [| lra].
    apply Hpass; [reflexivity |]. rewrite Rabs_left; lra.
Qed.

(** Two Moons hours apart stand at different distances. *)
Lemma moon_distance_differs (fuel fuel' : nat) (v : R) (this s : Planet) :
  moon fuel 0 = Some this -> moon fuel' v = Some s ->
  1e7 <= Rabs v <= 1e8 ->
  distance s <> distance this.
Proof.
  intros Hthis Hs Hv Heq.
  destruct (moon_geometry _ _ _ Hthis)
    as (E0 & HE0 & Hr0 & _ & Hd0 & _).
  destruct (moon_geometry _ _ _ Hs)
    as (E1 & HE1 & Hr1 & _ & Hd1 & _).
  assert (HM0 : Moon_M 0 = -1.827136) by (unfold Moon_M; lra).
  assert (HM1 : Moon_M v = -1.827136 + 2639203053e-18 * v)
    by (unfold Moon_M; lra).
  rewrite HM0 in *. rewrite HM1 in *.
  apply abs_le_inv in HE0, HE1, Hr0, Hr1.
  pose proof PI2_3_2 as Hpi.
  assert (Hv' : -1e8 <= v <= 1e8 /\ (v <= -1e7 \/ 1e7 <= v)).
  { unfold Rabs in Hv. destruct (Rcase_abs v); lra. }
  assert (Hcos : cos (- E1) = cos (- E0)).
  { rewrite !cos_neg. rewrite Hd0, Hd1 in Heq. lra. }
  apply cos_inj in Hcos; [| lra | lra].
  assert (HE : E1 = E0) by lra. subst E1.
  lra.
Qed.

Lemma parallax_injective (d d' : R) :
  0 < d -> 0 < d' -> parallax d = parallax d' -> d = d'.
Proof.
  unfold parallax. intros Hd Hd' Heq.
  assert (H : d * (2443e-6 / d) = d' * (2443e-6 / d'))
    by (transitivity 2443e-6; [| symmetry]; field; lra).
  rewrite Heq in H.
  assert (Hp : 0 < 2443e-6 / d') by (apply Rdiv_lt_0_compat; lra).
  apply (Rmult_eq_reg_r _ _ _ H). lra.
Qed.

(** ** Convergence of Newton's iteration for eccentricities up to 0.9 *)

Lemma PI_upper : PI <= 3.47.
Proof.
  pose proof (PI_ineq 1) as [_ H].
  unfold sum_f_R0, tg_alt, PI_tg in H. simpl in H. lra.
Qed.

Lemma sin_concave (a b : R) :
  0 <= a <= PI -> 0 <= b <= PI -> sin a <= sin b + cos b * (a - b).
Proof.
  intros Ha Hb.
  assert (Hmvt : forall p q, p < q ->
            exists c, sin q - sin p = cos c * (q - p) /\ p < c < q).
  { intros p q Hpq. apply MVT_cor2; [exact Hpq |].
    intros c _. apply derivable_pt_lim_sin. }
  destruct (Rtotal_order a b) as [Hlt | [-> | Hgt]].
  - destruct (Hmvt a b Hlt) as (c & Hc & Hc1 & Hc2).
    assert (cos b <= cos c) by (apply cos_decr_1; lra).
    nra.
  - lra.
  - destruct (Hmvt b a Hgt) as (c & Hc & Hc1 & Hc2).
    assert (cos c <= cos b) by (apply cos_decr_1; lra).
    nra.
Qed.

Lemma cos_upper (a : R) : -2 <= a <= 2 -> cos a <= 1 - a * a / 2 + a * a * a * a / 24.
Proof.
  intros Ha. pose proof (pre_cos_bound a 0 ltac:(lra) ltac:(lra)) as [_ H].
  unfold cos_approx, cos_term, sum_f_R0 in H. simpl in H. lra.
Qed.

Lemma cubic_margin (s : R) :
  0 <= s <= 1 -> 0.9 * s <= (3 - s) * (0.1 + 0.4125 * (s * s)).
Proof.
  intros Hs.
  assert (H1 : 0 <= (s - 0.56) * (s - 0.56)) by apply Rle_0_sqr.
  nra.
Qed.

Lemma overshoot_near_PI (s : R) :
  0 <= s <= PI / 2 -> 0.9 * (sin s + (PI - s) * cos s) <= PI - s.
Proof.
  intros Hs.
  pose proof PI2_3_2 as Hpi3. pose proof PI_4 as Hpi4.
  assert (Hsin : sin s <= s /\ sin s <= 1).
  { pose proof (SIN_bound s). pose proof (sin_abs_le s) as H1.
    rewrite (Rabs_pos_eq s) in H1 by lra. apply abs_le_inv in H1. lra. }
  destruct (Rle_dec s 1) as [Hs1 | Hs1].
  - pose proof (cos_upper s ltac:(lra)) as Hc.
    pose proof (cubic_margin s ltac:(lra)) as Hq.
    assert (Hs2 : 0 <= s * s <= 1) by nra.
    assert (Hs4 : s * s * s * s <= s * s).
    { replace (s * s * s * s) with (s * s * (s * s)) by ring.
      rewrite <- (Rmult_1_r (s * s)) at 3.
      apply Rmult_le_compat_l; lra. }
    assert (Hc' : cos s <= 1 - 11 / 24 * (s * s)) by lra.
    assert (HP : 3 - s <= PI - s) by lra.
    nra.
  - destruct (Rle_dec s 1.2) as [Hs2 | Hs2].
    + assert (Hc : cos s <= 13 / 24).
      { apply Rle_trans with (cos 1).
        - apply cos_decr_1; lra.
        - pose proof (cos_upper 1 ltac:(lra)). lra. }
      nra.
    + assert (Hc : cos s <= 0.3664).
      { apply Rle_trans with (cos 1.2).
        - apply cos_decr_1; lra.
        - pose proof (cos_upper 1.2 ltac:(lra)). lra. }
      nra.
Qed.

Lemma overshoot (t : R) : 0 <= t <= PI -> 0.9 * (sin t - t * cos t) <= t.
Proof.
  intros Ht.
  destruct (Rle_dec 0 (cos t)) as [Hc | Hc].
  - pose proof (sin_abs_le t) as H1.
    rewrite (Rabs_pos_eq t) in H1 by lra. apply abs_le_inv in H1. nra.
  - assert (Hhalf : PI / 2 <= t).
    { destruct (Rle_dec (PI / 2) t) as [H | H]; [exact H |].
      exfalso. apply Hc. left. apply cos_gt_0; lra. }
    pose proof (overshoot_near_PI (PI - t) ltac:(lra)) as H.
    replace (PI - (PI - t)) with t in H by ring.
    rewrite sin_PI_x in H.
    replace (cos (PI - t)) with (- cos t) in H.
    2:{ rewrite cos_minus, cos_PI, sin_PI. ring. }
    lra.
Qed.

Lemma kepler_dM_step (M e E : R) :
  1 - e * cos E <> 0 ->
  kepler_dM M e (E + kepler_dE M e E)
  = e * (sin (E + kepler_dE M e E) - sin E - kepler_dE M e E * cos E).
Proof.
  intros HD.
  set (d := kepler_dE M e E).
  assert (Hd : kepler_dM M e E = d * (1 - e * cos E)).
  { subst d. unfold kepler_dE, Math.cos. field. exact HD. }
  unfold kepler_dM, Math.sin in *. lra.
Qed.

Section Newton.

Variables M e : R.
Hypothesis He : 0 <= e <= 0.9.
Hypothesis HM : 0 <= M <= PI.

Let dE (E : R) : R := kepler_dE M e E.

Lemma newton_denominator (E : R) : 0.1 <= 1 - e * cos E.
Proof. pose proof (COS_bound E). nra. Qed.

Lemma sin_above_chord (E : R) :
  M <= E <= PI -> 0 <= sin E - (E - M) * cos E.
Proof.
  intros HE.
  assert (Hs : 0 <= sin E) by (apply sin_ge_0; lra).
  destruct (Rle_dec (cos E) 0) as [Hc | Hc]; [nra |].
  pose proof (sin_concave 0 E ltac:(pose proof PI_RGT_0; lra) ltac:(lra)) as H.
  rewrite sin_0 in H. nra.
Qed.

Lemma newton_step_ge_M (E : R) : M <= E <= PI -> M <= E + dE E.
Proof.
  intros HE. subst dE. cbv beta.
  pose proof (newton_denominator E) as HD.
  pose proof (sin_above_chord E HE) as Hch.
  unfold kepler_dE, kepler_dM, Math.sin, Math.cos.
  apply Rle_trans
    with (M + e * (sin E - (E - M) * cos E) / (1 - e * cos E)).
  - assert (0 <= e * (sin E - (E - M) * cos E) / (1 - e * cos E)); [| lra].
    apply Rmult_le_pos; [nra |]. left. apply Rinv_0_lt_compat. lra.
  - right. field. lra.
Qed.

Lemma newton_step_right_of_root (E : R) :
  0 <= E <= PI -> 0 <= E + dE E <= PI -> kepler_dM M e (E + dE E) <= 0.
Proof.
  intros HE HN. subst dE. cbv beta in *.
  pose proof (newton_denominator E) as HD.
  rewrite kepler_dM_step by lra.
  pose proof (sin_concave (E + kepler_dE M e E) E HN HE) as H.
  nra.
Qed.

Lemma kepler_region_step (E : R) :
  kepler_region M e E ->
  kepler_region M e (E + dE E) /\ dE E <= 0.
Proof.
  intros [HE Hr].
  pose proof (newton_denominator E) as HD.
  assert (Hd : dE E <= 0).
  { subst dE. cbv beta. unfold kepler_dE, Math.cos.
    apply Rle_trans with (0 / (1 - e * cos E)); [| right; field; lra].
    unfold Rdiv. apply Rmult_le_compat_r; [| exact Hr].
    left. apply Rinv_0_lt_compat. lra. }
  pose proof (newton_step_ge_M E HE) as HN.
  split; [| exact Hd].
  split; [lra |].
  apply newton_step_right_of_root; lra.
Qed.

Lemma seed_in_range : M <= M + e * sin M <= PI.
Proof.
  assert (Hs : 0 <= sin M) by (apply sin_ge_0; lra).
  assert (Hs' : sin M <= PI - M).
  { rewrite <- sin_PI_x. pose proof (sin_abs_le (PI - M)) as H.
    rewrite (Rabs_pos_eq (PI - M)) in H by lra.
    apply abs_le_inv in H. lra. }
  split; nra.
Qed.

Lemma kepler_region_after_seed :
  kepler_region M e (M + e * sin M + dE (M + e * sin M)).
Proof.
  pose proof seed_in_range as HE0.
  set (E0 := M + e * sin M) in *.
  pose proof (newton_denominator E0) as HD.
  pose proof (newton_step_ge_M E0 HE0) as Hge.
  assert (Hle : E0 + dE E0 <= PI).
  { destruct (Rle_dec (kepler_dM M e E0) 0) as [Hr | Hr].
    - assert (dE E0 <= 0); [| lra].
      subst dE. cbv beta. unfold kepler_dE, Math.cos.
      apply Rle_trans with (0 / (1 - e * cos E0)); [| right; field; lra].
      unfold Rdiv. apply Rmult_le_compat_r; [| exact Hr].
      left. apply Rinv_0_lt_compat. lra.
    - assert (Hd : dE E0 <= PI - E0); [| lra].
      subst dE. cbv beta. unfold kepler_dE, Math.cos.
      apply div_le_bound; [lra |].
      set (t := PI - E0).
      assert (Ht : 0 <= t <= PI)
        by (subst t; pose proof PI_RGT_0; lra).
      pose proof (overshoot t Ht) as Hov.
      assert (Hst : sin E0 = sin t)
        by (subst t; now rewrite sin_PI_x).
      assert (Hct : cos E0 = - cos t).
      { subst t. rewrite cos_minus, cos_PI, sin_PI. ring. }
      assert (Hpos : 0 <= sin t - t * cos t).
      { pose proof (sin_concave 0 t ltac:(pose proof PI_RGT_0; lra) Ht)
          as H. rewrite sin_0 in H. lra. }
      assert (HsM : 0 <= sin M) by (apply sin_ge_0; lra).
      unfold kepler_dM, Math.sin. rewrite Hst, Hct.
      replace (M - (E0 - e * sin t)) with (e * sin t - e * sin M)
        by (subst E0; ring).
      fold t. nra. }
  split; [lra |].
  apply newton_step_right_of_root; lra.
Qed.

End Newton.

Lemma kepler_dE_next_9 (M e E : R) :
  Rabs e <= 0.9 ->
  Rabs (kepler_dE M e (E + kepler_dE M e E))
  <= 9 * (kepler_dE M e E * kepler_dE M e E).
Proof.
  intros He.
  pose proof (Rabs_pos e) as He0.
  pose proof (Rle_0_sqr (kepler_dE M e E)) as Hsq. unfold Rsqr in Hsq.
  eapply Rle_trans.
  - apply kepler_dE_le; [lra | apply kepler_dM_next; lra].
  - apply div_le_bound; [lra |]. nra.
Qed.

Lemma kepler_stops (fuel : nat) (M e E : R) :
  Rabs (kepler_dE M e E) <= 1e-8 ->
  exists E' : R, kepler (S fuel) M e E = Some E'.
Proof.
  intros Hd. rewrite kepler_unfold.
  destruct (Rle_dec _ _) as [_ | Hn]; [eexists; reflexivity | contradiction].
Qed.

Lemma kepler_chain (fuel : nat) (M e bound bound' : R) :
  Rabs e <= 0.9 -> 9 * (bound * bound) <= bound' ->
  (forall E : R, Rabs (kepler_dE M e E) <= bound' ->
                 exists E' : R, kepler fuel M e E = Some E') ->
  forall E : R, Rabs (kepler_dE M e E) <= bound ->
                exists E' : R, kepler (S fuel) M e E = Some E'.
Proof.
  intros He Hb Hnext E Hd. rewrite kepler_unfold.
  destruct (Rle_dec _ _) as [_ | _]; [eexists; reflexivity |].
  apply Hnext.
  eapply Rle_trans; [apply kepler_dE_next_9, He |].
  pose proof (square_le _ _ Hd). lra.
Qed.

(** From an increment of at most 1/10 the loop ends within nine passes. *)
Lemma kepler_small_phase (M e E : R) :
  Rabs e <= 0.9 -> Rabs (kepler_dE M e E) <= 0.1 ->
  exists E' : R, kepler 9 M e E = Some E'.
Proof.
  intros He. revert E.
  apply (kepler_chain 8 M e 0.1 0.09 He); [lra |].
  apply (kepler_chain 7 M e 0.09 0.0729 He); [lra |].
  apply (kepler_chain 6 M e 0.0729 0.0479 He); [lra |].
  apply (kepler_chain 5 M e 0.0479 0.0207 He); [lra |].
  apply (kepler_chain 4 M e 0.0207 0.0039 He); [lra |].
  apply (kepler_chain 3 M e 0.0039 1.4e-4 He); [lra |].
  apply (kepler_chain 2 M e 1.4e-4 1.8e-7 He); [lra |].
  apply (kepler_chain 1 M e 1.8e-7 1e-8 He); [lra |].
  intros E. apply kepler_stops.
Qed.

Lemma kepler_big_phase (n : nat) (M e E : R) :
  0 <= e <= 0.9 -> 0 <= M <= PI ->
  kepler_region M e E -> E - M <= INR n * 0.1 ->
  exists E' : R, kepler (n + 9) M e E = Some E'.
Proof.
  intros He HM. revert E.
  assert (Habs : Rabs e <= 0.9) by (rewrite Rabs_pos_eq; lra).
  induction n as [| n IH]; intros E Hreg Hpot.
  - destruct (kepler_region_step M e He HM E Hreg) as [[[Hge _] _] Hd].
    destruct Hreg as [[HE _] _]. cbn [INR] in Hpot.
    apply kepler_small_phase; [exact Habs |].
    apply Rabs_le. lra.
  - destruct (Rle_dec (Rabs (kepler_dE M e E)) 0.1) as [Hsmall | Hbig].
    + destruct (kepler_small_phase M e E Habs Hsmall) as [E' HE'].
      exists E'. eapply kepler_fuel_mono; [| exact HE']. lia.
    + destruct (kepler_region_step M e He HM E Hreg) as [Hreg' Hd].
      cbn [Nat.add]. rewrite kepler_unfold.
      destruct (Rle_dec _ _) as [_ | _]; [eexists; reflexivity |].
      apply IH; [exact Hreg' |].
      rewrite S_INR in Hpot.
      rewrite Rabs_left1 in Hbig by exact Hd. lra.
Qed.

(** The first half of the orbit: one pass from the seed, then at most 35
    passes with an increment above 1/10, then the last nine. *)
Lemma kepler_converges_half (M e : R) :
  0 <= e <= 0.9 -> 0 <= M <= PI ->
  exists E : R, kepler 45 M e (M + e * Math.sin M) = Some E.
Proof.
  intros He HM. unfold Math.sin.
  change 45%nat with (S (35 + 9)). rewrite kepler_unfold.
  destruct (Rle_dec _ _) as [_ | _]; [eexists; reflexivity |].
  apply kepler_big_phase; [exact He | exact HM | |].
  - apply kepler_region_after_seed; assumption.
  - destruct (kepler_region_after_seed M e He HM) as [[_ Hle] _].
    pose proof PI_upper.
    replace (INR 35) with 35 by (simpl; lra). lra.
Qed.

(** The second half mirrors the first. *)
Lemma kepler_dE_mirror (M e E : R) :
  kepler_dE (2 * PI - M) e (2 * PI - E) = - kepler_dE M e E.
Proof.
  unfold kepler_dE, kepler_dM, Math.sin, Math.cos.
  replace (sin (2 * PI - E)) with (- sin E)
    by (rewrite sin_minus, sin_2PI, cos_2PI; ring).
  replace (cos (2 * PI - E)) with (cos E)
    by (rewrite cos_minus, sin_2PI, cos_2PI; ring).
  unfold Rdiv. ring.
Qed.

Lemma kepler_mirror (fuel : nat) (M e E E' : R) :
  kepler fuel M e E = Some E' ->
  kepler fuel (2 * PI - M) e (2 * PI - E) = Some (2 * PI - E').
Proof.
  revert E. induction fuel as [| fuel IH]; intros E; [discriminate |].
  rewrite !kepler_unfold, kepler_dE_mirror, Rabs_Ropp.
  replace (2 * PI - E + - kepler_dE M e E)
    with (2 * PI - (E + kepler_dE M e E)) by ring.
  destruct (Rle_dec _ _) as [_ | _]; [now intros [= <-] | apply IH].
Qed.

Lemma kepler_converges (M e : R) :
  0 <= e <= 0.9 -> 0 <= M < 2 * PI ->
  exists E : R,
    kepler 45 M e (M + e * Math.sin M) = Some E /\
    Rabs (M - (E - e * Math.sin E)) < 1e-8.
Proof.
  intros He HM.
  assert (Habs : Rabs e < 1) by (rewrite Rabs_pos_eq; lra).
  assert (Hex : exists E : R, kepler 45 M e (M + e * Math.sin M) = Some E).
  { destruct (Rle_dec M PI) as [Hle | Hgt].
    - apply kepler_converges_half; [exact He | lra].
    - destruct (kepler_converges_half (2 * PI - M) e He ltac:(lra))
        as [E HE].
      apply kepler_mirror in HE. exists (2 * PI - E).
      rewrite <- HE. f_equal; [ring |].
      unfold Math.sin. rewrite sin_minus, sin_2PI, cos_2PI. ring. }
  destruct Hex as [E HE]. exists E. split; [exact HE |].
  pose proof (kepler_result_residual _ _ _ _ _ Habs HE) as Hres.
  unfold kepler_dM in Hres. rewrite (Rabs_pos_eq e) in Hres by lra.
  eapply Rle_lt_trans; [exact Hres |]. nra.
Qed.

(** ** Runs of the solver on a fixed star *)

Lemma setTime_fixed_star (fuel : nat) (t : R) :
  setTime fixed_star (S fuel) t = Some (star_at t).
Proof.
  unfold fixed_star, setTime, Planet_setTime. cbv zeta.
  rewrite kepler_unfold.
  assert (Hd : kepler_dE (0 - 0) 0 (0 - 0 + 0 * Math.sin (0 - 0)) = 0).
  { unfold kepler_dE, kepler_dM, Rdiv. ring. }
  rewrite Hd, Rabs_R0.
  destruct (Rle_dec 0 1e-8) as [_ | Hn]; [| exfalso; apply Hn; lra].
  unfold star_at, Math.sin, Math.cos, Math.sqrt. f_equal.
  replace (0 - 0 + 0 * sin (0 - 0) + 0) with 0 by ring.
  replace (0 - 0) with 0 by ring.
  replace (1 - 0 * 0) with 1 by ring.
  rewrite sin_0, cos_0, sqrt_1.
  f_equal; ring.
Qed.

Lemma distance_star (t : R) : distance (star_at t) = 1.
Proof.
  unfold distance, star_at, Math.sqrt; cbn [x y z].
  replace (1 * 1 + 0 * 0 + 0 * 0) with 1 by ring.
  apply sqrt_1.
Qed.

Lemma declination_star (t : R) : declination (star_at t) = 0.
Proof.
  unfold declination. cbv zeta. rewrite distance_star.
  unfold star_at, Math.asin; cbn [x y z time].
  replace ((0 * Math.sin (obliquity t) + 0 * Math.cos (obliquity t)) / 1)
    with 0 by field.
  rewrite asin_0. ring.
Qed.

Lemma right_ascension_star (t : R) : right_ascension (star_at t) = 24.
Proof.
  unfold right_ascension, star_at; cbn [x y z time]. cbv zeta.
  replace (0 * Math.sin (obliquity t) - 0 * Math.cos (obliquity t)) with 0
    by ring.
  rewrite atan2_negative_axis by lra.
  rewrite half_turn_scaled. lra.
Qed.

Lemma floor_eq (z : Z) (v : R) : IZR z <= v < IZR z + 1 -> Math.floor v = IZR z.
Proof. intros H. unfold Math.floor. now rewrite (Zfloor_eq z v H). Qed.

(** The transit of the star, seen from longitude 0, while Greenwich
    sidereal time is between 0 and 12 hours. *)
Lemma transit_star (t lat : R) :
  0 <= gmst t <= 12 ->
  transit (star_at t) lat 0 = t - 3590170.4 * gmst t.
Proof.
  intros Hg. unfold transit, hour_angle. cbv zeta.
  rewrite right_ascension_star. cbn [time star_at].
  rewrite (floor_eq (-1)) by (split; lra).
  destruct (Rgt_dec _ 12) as [Hgt | _]; [lra | lra].
Qed.

Lemma riseset_pass_star (t direction : R) :
  0 <= gmst t <= 12 ->
  riseset_pass 0 0 direction
    (Math.sin (0 * (Math.PI / 180))) (Math.cos (0 * (Math.PI / 180)))
    (Math.sin (90 * (Math.PI / 180))) (star_at t)
  = if Rge_dec (Rabs (3590170.4 * gmst t)) 60000
    then Iterate (t - 3590170.4 * gmst t)
    else Accept (t - 3590170.4 * gmst t).
Proof.
  intros Hg. unfold riseset_pass, cos_lha. cbv zeta.
  rewrite declination_star, degrees_90, degrees_0, transit_star by exact Hg.
  unfold Math.sin, Math.cos, Math.abs, Math.acos.
  rewrite sin_PI2, sin_0, cos_0.
  replace ((1 - 0 * 0) / (1 * 1)) with 1 by field.
  rewrite acos_1.
  destruct (Rgt_dec (Rabs 1) 1) as [Hgt | _].
  { rewrite Rabs_pos_eq in Hgt; lra. }
  cbn [time star_at].
  replace (t - 3590170.4 * gmst t + 13713440.9 * direction * 0 - t)
    with (- (3590170.4 * gmst t)) by ring.
  rewrite Rabs_Ropp.
  replace (t - 3590170.4 * gmst t + 13713440.9 * direction * 0)
    with (t - 3590170.4 * gmst t) by ring.
  reflexivity.
Qed.

(** Two passes: the first moves the star to its transit, the second accepts
    a candidate a quarter of a second from there; the call hands back the
    object it was given. *)
Lemma riseset_fixed_star (direction : R) :
  exists v : R,
    visits fixed_star 0 0 direction
      (Math.sin (0 * (Math.PI / 180))) (Math.cos (0 * (Math.PI / 180)))
      (Math.sin (90 * (Math.PI / 180))) (star_at 0)
      (star_at (- 3590170.4 * 6.699851)) /\
    riseset fixed_star 2 (star_at 0) 0 0 90 direction
    = Some (Num v, star_at 0).
Proof.
  assert (Hg0 : gmst 0 = 6.699851) by (unfold gmst; lra).
  set (t1 := - 3590170.4 * 6.699851).
  assert (Hg1 : 0 <= gmst t1 <= 1e-7) by (subst t1; unfold gmst; lra).
  assert (Hp0 : riseset_pass 0 0 direction
                  (Math.sin (0 * (Math.PI / 180)))
                  (Math.cos (0 * (Math.PI / 180)))
                  (Math.sin (90 * (Math.PI / 180))) (star_at 0)
                = Iterate t1).
  { rewrite riseset_pass_star by lra. rewrite Hg0.
    destruct (Rge_dec _ 60000) as [_ | Hn].
    - f_equal. subst t1. lra.
    - exfalso. apply Hn. rewrite Rabs_pos_eq; lra. }
  assert (Hp1 : riseset_pass 0 0 direction
                  (Math.sin (0 * (Math.PI / 180)))
                  (Math.cos (0 * (Math.PI / 180)))
                  (Math.sin (90 * (Math.PI / 180))) (star_at t1)
                = Accept (t1 - 3590170.4 * gmst t1)).
  { rewrite riseset_pass_star by lra.
    destruct (Rge_dec _ 60000) as [Hge | _]; [| reflexivity].
    rewrite Rabs_pos_eq in Hge; lra. }
  exists (t1 - 3590170.4 * gmst t1). split.
  - eapply visits_iterate;
      [exact Hp0 | apply (setTime_fixed_star 0) | apply visits_entry].
  - unfold riseset. cbv zeta. cbn [riseset_loop].
    rewrite Hp0, setTime_fixed_star, Hp1. reflexivity.
Qed.

(** ** The objects a run visits *)




Lemma visits_Sun_from (lat lon direction sin_lat cos_lat sin_h0 : R)
    (this s : Planet) :
  visits Sun lat lon direction sin_lat cos_lat sin_h0 this s ->
  s = this \/ exists (fuel : nat) (t : R), sun fuel t = Some s.
Proof.
  induction 1 as [this | this t fuel this1 s _ Hset _ IH]; [now left |].
  right. destruct IH as [-> | IH]; [now exists fuel, t | exact IH].
Qed.


(** ** Arcsine and degrees *)





(** ** Termination of the constructors over the range of [Date] *)

Lemma kepler_dE_next_date (M e E : R) :
  Rabs e <= 0.13 ->
  Rabs (kepler_dE M e (E + kepler_dE M e E))
  <= 0.15 * (kepler_dE M e E * kepler_dE M e E).
Proof.
  intros He.
  pose proof (Rabs_pos e) as He0.
  pose proof (Rle_0_sqr (kepler_dE M e E)) as Hsq. unfold Rsqr in Hsq.
  eapply Rle_trans.
  - apply kepler_dE_le; [lra | apply kepler_dM_next; lra].
  - apply div_le_bound; [lra |]. nra.
Qed.

Lemma kepler_returns_date (M e : R) :
  Rabs e <= 0.13 ->
  exists E : R, kepler 3 M e (M + e * Math.sin M) = Some E.
Proof.
  intros He.
  pose proof (Rabs_pos e) as He0.
  set (E0 := M + e * Math.sin M).
  assert (H0 : Rabs (kepler_dE M e E0) <= 0.02).
  { eapply Rle_trans.
    - apply kepler_dE_le; [lra | apply kepler_seed_dM].
    - apply div_le_bound; [lra |]. nra. }
  rewrite kepler_unfold.
  destruct (Rle_dec _ _) as [_ | _]; [eexists; reflexivity |].
  set (E1 := E0 + kepler_dE M e E0).
  pose proof (kepler_dE_next_date M e E0 He) as H1. fold E1 in H1.
  pose proof (square_le _ _ H0) as Hs0.
  rewrite kepler_unfold.
  destruct (Rle_dec _ _) as [_ | _]; [eexists; reflexivity |].
  set (E2 := E1 + kepler_dE M e E1).
  pose proof (kepler_dE_next_date M e E1 He) as H2. fold E2 in H2.
  assert (H1' : Rabs (kepler_dE M e E1) <= 6e-5) by lra.
  pose proof (square_le _ _ H1') as Hs1.
  rewrite kepler_unfold.
  destruct (Rle_dec _ _) as [_ | Hn]; [eexists; reflexivity |].
  exfalso. apply Hn. lra.
Qed.

Lemma sun_returns_date (t : R) :
  -8.64e15 <= t <= 8.64e15 -> exists this : Planet, sun 3 t = Some this.
Proof.
  intros Ht. unfold sun, setTime, Sun_setTime, Planet_setTime. cbv zeta.
  destruct (kepler_returns_date
              (4.891045 + 199106385e-18 * t - (4.929185 + 9510e-18 * t))
              (0.016721 - 13e-18 * t)) as [E ->];
    [apply Rabs_le; lra | eexists; reflexivity].
Qed.

Lemma sun_geometry (fuel : nat) (t : R) (this : Planet) :
  sun fuel t = Some this -> -8.64e15 <= t <= 8.64e15 ->
  time this = t /\ z this = 0 /\
  0.87 <= distance this <= 1.131 /\
  Rabs (y this) <= distance this.
Proof.
  intros Hsun Ht. pose proof (sun_z _ _ _ Hsun) as Hz.
  unfold sun, setTime, Sun_setTime in Hsun.
  set (e := 0.016721 - 13e-18 * t) in *.
  assert (He : -0.13 <= e <= 0.13) by (subst e; lra).
  assert (Habs : Rabs e < 1) by (apply Rabs_def1; lra).
  apply Planet_setTime_geometry in Hsun
    as (E & _ & Htime & Hd & Hy & _); [| lra | exact Habs].
  pose proof (COS_bound E) as Hc.
  repeat split; try assumption; rewrite Hd; nra.
Qed.



(** ** NaN in binary64 arithmetic *)

Lemma mul_nan_l (v : float) : (nan * v)%float = nan.
Proof.
  apply Prim2SF_inj. rewrite mul_spec.
  change (Prim2SF nan) with S754_nan. reflexivity.
Qed.

Lemma mul_nan_r (v : float) : (v * nan)%float = nan.
Proof.
  apply Prim2SF_inj. rewrite mul_spec.
  change (Prim2SF nan) with S754_nan.
  destruct (Prim2SF v); reflexivity.
Qed.

Lemma add_nan_r (v : float) : (v + nan)%float = nan.
Proof.
  apply Prim2SF_inj. rewrite add_spec.
  change (Prim2SF nan) with S754_nan.
  destruct (Prim2SF v); reflexivity.
Qed.

Lemma sub_nan_r (v : float) : (v - nan)%float = nan.
Proof.
  apply Prim2SF_inj. rewrite sub_spec.
  change (Prim2SF nan) with S754_nan.
  destruct (Prim2SF v); reflexivity.
Qed.

(** [Math.floor] on a few numbers: below and above 0, at an integer, and
    from 2^52 on. *)
Lemma floor_examples :
  Binary64.floor 2.7 = 2%float /\ Binary64.floor (-0.3) = (-1)%float /\
  Binary64.floor (-2.5) = (-3)%float /\ Binary64.floor (-2) = (-2)%float /\
  Binary64.floor 0.3 = 0%float /\ Binary64.floor 1e300 = 1e300%float /\
  Binary64.floor (-1e-300) = (-1)%float.
Proof. vm_compute. repeat split. Qed.

(** * The claims *)

(** C1 (as stated, refuted).  The Moon constructed at time 0, asked on the
    equator at longitude 0 for its rise (direction -1) or its set
    (direction 1): the call is [riseset] with the threshold [Moon_h0 this]
    of the Moon it is made on, and the loop, which runs with the sine of
    that threshold, evaluates its body at an object [s] whose own threshold
    [-0.583 - parallax(distance s)] is another number, with another sine.
    The threshold in use at [s] is not the one recomputed against the
    distance of the Moon at [s]. *)
Lemma Moon_threshold_is_not_recomputed :
  exists (this s : Planet) (direction : R),
    moon 3 0 = Some this /\
    ((direction = -1 /\
      forall fuel : nat,
        rise Moon fuel this 0 0
        = riseset Moon fuel this 0 0 (Moon_h0 this) direction) \/
     (direction = 1 /\
      forall fuel : nat,
        set Moon fuel this 0 0
        = riseset Moon fuel this 0 0 (Moon_h0 this) direction)) /\
    visits Moon 0 0 direction
      (Math.sin (0 * (Math.PI / 180))) (Math.cos (0 * (Math.PI / 180)))
      (Math.sin (Moon_h0 this * (Math.PI / 180))) this s /\
    Moon_h0 s <> Moon_h0 this /\
    Math.sin (Moon_h0 s * (Math.PI / 180))
    <> Math.sin (Moon_h0 this * (Math.PI / 180)).
Proof.
  destruct (moon_returns 0) as [this Hthis].
  destruct (moon_first_pass 3 0 this 0 Hthis ltac:(lra))
    as (direction & v & Hdir & Hpass & Hv).
  rewrite Rminus_0_r in Hv.
  destruct (moon_returns v) as [s Hs].
  assert (Hh : Moon_h0 s <> Moon_h0 this).
  { intros Heq.
    apply (moon_distance_differs _ _ _ _ _ Hthis Hs Hv).
    destruct (moon_geometry _ _ _ Hthis) as (_ & _ & _ & _ & _ & Hd & _).
    destruct (moon_geometry _ _ _ Hs) as (_ & _ & _ & _ & _ & Hd' & _).
    apply parallax_injective; [lra | lra |].
    unfold Moon_h0 in Heq. lra. }
  exists this, s, direction.
  split; [exact Hthis |]. split.
  { destruct Hdir as [-> | ->]; [left | right]; split; reflexivity. }
  split; [| split; [exact Hh |]].
  - eapply visits_iterate; [exact Hpass | exact Hs | apply visits_entry].
  - intros Heq. apply Hh.
    pose proof (Moon_h0_range _ _ _ Hthis) as (_ & Hr & _).
    pose proof (Moon_h0_range _ _ _ Hs) as (_ & Hr' & _).
    unfold Math.sin in Heq. apply sin_inj in Heq; [| lra | lra].
    unfold Math.PI in Heq. pose proof PI_RGT_0.
    apply (Rmult_eq_reg_r (PI / 180)); [exact Heq |].
    apply Rgt_not_eq. apply Rdiv_lt_0_compat; lra.
Qed.

(** C1 (amended).  For the Moon, [rise(lat, lon)] and [set(lat, lon)] call
    the solver with the threshold [-0.583 - parallax(distance)] evaluated
    once, at the distance of the Moon the method is called on.  The solver
    takes the sine of this threshold before its loop and every pass of the
    loop uses that sine: after a pass that ends in [continue] the loop goes
    on from the Moon at the candidate time with the threshold of the Moon
    at entry, and the pass that ends the call is made with it too. *)
Theorem Moon_threshold_fixed_at_entry
    (fuel : nat) (this : Planet) (lat lon : R) :
  let h0 := -0.583 - parallax (distance this) in
  let sin_lat := Math.sin (lat * (Math.PI / 180)) in
  let cos_lat := Math.cos (lat * (Math.PI / 180)) in
  let sin_h0 := Math.sin (h0 * (Math.PI / 180)) in
  rise Moon fuel this lat lon = riseset Moon fuel this lat lon h0 (-1) /\
  set Moon fuel this lat lon = riseset Moon fuel this lat lon h0 1 /\
  (forall direction : R,
     riseset Moon (S fuel) this lat lon h0 direction
     = match riseset_pass lat lon direction sin_lat cos_lat sin_h0 this with
       | Bail => Some (NaN, this)
       | Accept v => Some (Num v, this)
       | Iterate v =>
           match moon fuel v with
           | None => None
           | Some this1 =>
               riseset_loop Moon fuel lat lon direction
                 (time this) (x this) (y this) (z this)
                 sin_lat cos_lat sin_h0 this1
           end
       end) /\
  (forall (direction : R) (result : number) (this' : Planet),
     riseset Moon fuel this lat lon h0 direction = Some (result, this') ->
     exists last : Planet,
       visits Moon lat lon direction sin_lat cos_lat sin_h0 this last /\
       ((riseset_pass lat lon direction sin_lat cos_lat sin_h0 last = Bail /\
         result = NaN) \/
        (exists v : R,
           riseset_pass lat lon direction sin_lat cos_lat sin_h0 last
           = Accept v /\
           result = Num v))).
Proof.
  cbv zeta. split; [reflexivity |]. split; [reflexivity |]. split.
  - intros direction. unfold riseset. cbv zeta. cbn [riseset_loop].
    destruct (riseset_pass _ _ _ _ _ _ this) as [| v | v].
    + rewrite restore_all. now destruct this.
    + rewrite restore_all. now destruct this.
    + reflexivity.
  - intros direction result this' Hrun. unfold riseset in Hrun.
    cbv zeta in Hrun.
    exact (riseset_loop_exit _ _ _ _ _ _ _ _ _ _ _ _ _ _ _ Hrun).
Qed.

(** C2.  Whatever the class of the body, the latitude, the longitude, the
    threshold and the direction, a call of [riseset] that returns, be it
    with a timestamp or with [NaN], leaves the object equal to the object
    it was called on, and so do [rise], [set], [dawn] and [dusk]; the
    distance, the right ascension and the declination read after the call
    are those read before it. *)
Theorem riseset_leaves_this_unchanged
    (cls : Class) (fuel : nat) (this : Planet) (lat lon h0 direction : R)
    (result : number) (this' : Planet) :
  (riseset cls fuel this lat lon h0 direction = Some (result, this') \/
   rise cls fuel this lat lon = Some (result, this') \/
   set cls fuel this lat lon = Some (result, this') \/
   dawn fuel this lat lon = Some (result, this') \/
   dusk fuel this lat lon = Some (result, this')) ->
  this' = this /\
  time this' = time this /\ x this' = x this /\
  y this' = y this /\ z this' = z this /\
  distance this' = distance this /\
  right_ascension this' = right_ascension this /\
  declination this' = declination this.
Proof.
  intros H.
  assert (Heq : this' = this).
  { destruct H as [H | [H | [H | [H | H]]]].
    - eapply riseset_restores, H.
    - destruct cls; cbn [rise] in H; eapply riseset_restores, H.
    - destruct cls; cbn [set] in H; eapply riseset_restores, H.
    - eapply riseset_restores, H.
    - eapply riseset_restores, H. }
  subst this'. repeat split.
Qed.

Lemma riseset_leaves_this_unchanged_witness :
  (exists (v : R) (this' : Planet),
     riseset fixed_star 2 (star_at 0) 0 0 90 1 = Some (Num v, this') /\
     this' = star_at 0 /\ distance this' = distance (star_at 0)) /\
  (exists this' : Planet,
     riseset Moon 1 on_axis 60 0 90 (-1) = Some (NaN, this') /\
     this' = on_axis /\ declination this' = declination on_axis).
Proof.
  split.
  - destruct (riseset_fixed_star 1) as (v & _ & Hrun).
    exists v, (star_at 0). split; [exact Hrun |].
    pose proof (riseset_leaves_this_unchanged fixed_star 2 (star_at 0)
                  0 0 90 1 (Num v) (star_at 0) (or_introl Hrun)) as H.
    split; [apply H | apply H].
  - exists on_axis. split; [apply riseset_on_axis_bails |].
    pose proof (riseset_leaves_this_unchanged Moon 1 on_axis 60 0 90 (-1)
                  NaN on_axis (or_introl (riseset_on_axis_bails _ _ _)))
      as H.
    split; [apply H | apply H].
Defined.






(** C5.  In binary64 the wrap does not stay below 24.  For an object of
    time 19028438.26095421 with right ascension 12 (an object on the
    negative first axis: [Math.atan2(0, 1)] is 0) and the longitude 0,
    [gmst(time) + lon * (1 / 15) - right_ascension] is -2^-49; its quotient
    by 24 has floor -1, and [ha + 24] rounds to 24: [hour_angle] returns
    24.  In exact arithmetic the wrap maps every number into the half-open
    interval from 0 to 24. *)
Theorem hour_angle_returns_24 :
  ((Binary64.gmst 19028438.26095421 + 0 * (1 / 15) - 12
    = -0x1p-49 /\
    Binary64.floor (-0x1p-49 / 24) = -1 /\
    -0x1p-49 - -1 * 24 = 24 /\
    Binary64.hour_angle 19028438.26095421 12 0 = 24)%float /\
   (24 <? 24)%float = false) /\
  (forall (this : Planet) (lon : R), 0 <= hour_angle this lon < 24).
Proof.
  split; [vm_compute; repeat split |].
  intros this lon. apply hour_angle_range.
Qed.



(** C7.  [transit] does not depend on its latitude argument. *)
Theorem transit_ignores_latitude (this : Planet) (lat1 lat2 lon : R) :
  transit this lat1 lon = transit this lat2 lon.
Proof. reflexivity. Qed.

(** C8.  The loop of [setTime] starts from [E0 = M + e sin M] and replaces
    [E] by [E + (M - (E - e sin E)) / (1 - e cos E)] until the increment is
    at most 1e-8 in absolute value.  For every eccentricity [e] from 0 to
    0.9 and every mean anomaly [M] from 0 to 2 PI (excluded) the loop ends
    within 45 passes, fewer than 50, with an [E] whose residual
    [|M - (E - e sin E)|] is below 1e-8; so [setTime] returns on such
    elements. *)
Theorem kepler_terminates_within_50 (M e : R) :
  0 <= e <= 0.9 -> 0 <= M < 2 * Math.PI ->
  (forall (fuel : nat) (E : R),
     kepler (S fuel) M e E
     = let dE := (M - (E - e * Math.sin E)) / (1 - e * Math.cos E) in
       if Rle_dec (Math.abs dE) 1e-8 then Some (E + dE)
       else kepler fuel M e (E + dE)) /\
  (exists (n : nat) (E : R),
     (n < 50)%nat /\
     kepler n M e (M + e * Math.sin M) = Some E /\
     Rabs (M - (E - e * Math.sin E)) < 1e-8) /\
  (forall t a i λ π Ω : R,
     λ - π = M ->
     exists this : Planet, Planet_setTime 49 t a e i λ π Ω = Some this).
Proof.
  intros He HM. unfold Math.PI in HM.
  destruct (kepler_converges M e He HM) as (E & HE & Hres).
  split; [reflexivity |]. split.
  - exists 45%nat, E. split; [lia |]. split; assumption.
  - intros t a i λ π Ω HMeq. unfold Planet_setTime. cbv zeta.
    rewrite HMeq.
    rewrite (kepler_fuel_mono 45 49 _ _ _ E ltac:(lia) HE).
    eexists; reflexivity.
Qed.

Lemma kepler_terminates_within_50_witness :
  exists (n : nat) (E : R),
    (n < 50)%nat /\
    kepler n 1 0.5 (1 + 0.5 * Math.sin 1) = Some E /\
    Rabs (1 - (E - 0.5 * Math.sin E)) < 1e-8.
Proof.
  assert (He : 0 <= 0.5 <= 0.9) by lra.
  assert (HM : 0 <= 1 < 2 * Math.PI)
    by (unfold Math.PI; pose proof PI2_3_2; lra).
  exact (proj1 (proj2 (kepler_terminates_within_50 1 0.5 He HM))).
Defined.

(** C9.  In binary64 the sine of the geocentric altitude at the sub-solar
    point exceeds 1.  For the Sun of time 5356800000 the declination is
    -6.736557672781799 degrees, with sine -0.11730440758527086 and cosine
    0.9930960054098842; at the latitude equal to that declination and hour
    angle 0 [sin_altitude] is 1.0000000000000002, [1 - sin_altitude^2] is
    negative, [cos_altitude] is NaN, and the altitude is NaN whatever
    [Math.asin] and [parallax] return.  In exact arithmetic the altitude
    there is 90 degrees. *)
Theorem subsolar_altitude_is_NaN :
  let sin_dec := (-0.11730440758527086)%float in
  let cos_dec := 0.9930960054098842%float in
  let sin_altitude :=
    Binary64.sin_altitude sin_dec cos_dec sin_dec cos_dec 1 in
  (sin_altitude = 1.0000000000000002%float /\
   (1 <? sin_altitude)%float = true /\
   (1 - sin_altitude * sin_altitude <? 0)%float = true /\
   Binary64.cos_altitude sin_altitude = nan /\
   forall asin_sin_altitude parallax_distance : float,
     Binary64.altitude asin_sin_altitude parallax_distance
       (Binary64.cos_altitude sin_altitude) = nan) /\
  (forall (planet : Planet) (lon : R),
     hour_angle planet lon = 0 ->
     altitude (observer planet (declination planet) lon) = 90).
Proof.
  cbv zeta. split.
  - assert (Hnan : Binary64.cos_altitude
                     (Binary64.sin_altitude (-0.11730440758527086)
                        0.9930960054098842 (-0.11730440758527086)
                        0.9930960054098842 1) = nan)
      by (vm_compute; reflexivity).
    split; [vm_compute; reflexivity |].
    split; [vm_compute; reflexivity |].
    split; [vm_compute; reflexivity |].
    split; [exact Hnan |].
    intros a p. rewrite Hnan. unfold Binary64.altitude.
    rewrite mul_nan_r. apply sub_nan_r.
  - intros planet lon Hha. unfold observer.
    apply altitude_at_zenith, Hha.
Qed.

(** C10 (as stated, refuted).  In binary64, at time 8e16 the eccentricity
    that [Sun.setTime] passes is -1.023279: [1 - e * e] is negative, its
    square root is NaN, and so are [v] and the [z] computed from it,
    whatever the sines and cosines are.  The z coordinate is not 0. *)
Lemma Sun_z_is_NaN :
  (Binary64.Sun_e 8e16 = (-1.023279)%float /\
   (1 - Binary64.Sun_e 8e16 * Binary64.Sun_e 8e16 <? 0)%float = true /\
   PrimFloat.sqrt (1 - Binary64.Sun_e 8e16 * Binary64.Sun_e 8e16) = nan) /\
  (forall u sin_E sin_w cos_w sin_i : float,
     Binary64.setTime_z u
       (Binary64.setTime_v 1.000001 (Binary64.Sun_e 8e16) sin_E)
       sin_w cos_w sin_i = nan) /\
  (nan =? 0)%float = false.
Proof.
  assert (Hnan : PrimFloat.sqrt
                   (1 - Binary64.Sun_e 8e16 * Binary64.Sun_e 8e16) = nan)
    by (vm_compute; reflexivity).
  split; [split; [vm_compute; reflexivity |];
          split; [vm_compute; reflexivity | exact Hnan] |].
  split; [| vm_compute; reflexivity].
  intros u sin_E sin_w cos_w sin_i.
  unfold Binary64.setTime_z, Binary64.setTime_v.
  rewrite Hnan, mul_nan_r, !mul_nan_l. apply add_nan_r.
Qed.

(** C10 (amended).  [Sun.setTime] passes inclination 0 and ascending node
    0, so at every time a [Date] can hold the z coordinate it computes is
    exactly 0, the Sun is at least 0.87 AU away, and its latitude, the
    arcsine of [z / distance], is exactly 0 degrees; the solver keeps this:
    every object its loop passes through at such a time has z = 0 and
    latitude 0, and so has the object a call of [riseset] leaves. *)
Theorem Sun_stays_in_the_ecliptic (fuel : nat) (t : R) (this : Planet) :
  sun fuel t = Some this -> -8.64e15 <= t <= 8.64e15 ->
  (z this = 0 /\ 0.87 <= distance this /\ latitude this = 0) /\
  (forall (lat lon direction sin_lat cos_lat sin_h0 : R) (s : Planet),
     visits Sun lat lon direction sin_lat cos_lat sin_h0 this s ->
     -8.64e15 <= time s <= 8.64e15 ->
     z s = 0 /\ 0.87 <= distance s /\ latitude s = 0) /\
  (forall (fuel' : nat) (lat lon h0 direction : R) (result : number)
          (this' : Planet),
     riseset Sun fuel' this lat lon h0 direction = Some (result, this') ->
     z this' = 0 /\ 0.87 <= distance this' /\ latitude this' = 0).
Proof.
  intros Hsun Ht.
  assert (Hgeo : forall (fuel0 : nat) (t0 : R) (s : Planet),
            sun fuel0 t0 = Some s -> -8.64e15 <= time s <= 8.64e15 ->
            z s = 0 /\ 0.87 <= distance s /\ latitude s = 0).
  { intros fuel0 t0 s Hs Hts.
    pose proof (sun_z _ _ _ Hs) as Hz.
    assert (Htime : time s = t0).
    { unfold sun, setTime, Sun_setTime in Hs.
      apply Planet_setTime_inv in Hs as (E & _ & Htime & _). exact Htime. }
    rewrite Htime in Hts.
    destruct (sun_geometry _ _ _ Hs Hts) as (_ & _ & Hd & _).
    split; [exact Hz |]. split; [lra | now apply latitude_of_z_0]. }
  assert (Hthis : z this = 0 /\ 0.87 <= distance this /\ latitude this = 0).
  { apply (Hgeo fuel t this Hsun).
    destruct (sun_geometry _ _ _ Hsun Ht) as (-> & _). exact Ht. }
  split; [exact Hthis |]. split.
  - intros lat lon direction sin_lat cos_lat sin_h0 s Hvis Hts.
    apply visits_Sun_from in Hvis as [-> | (fuel0 & t0 & Hs)];
      [exact Hthis | exact (Hgeo fuel0 t0 s Hs Hts)].
  - intros fuel' lat lon h0 direction result this' Hrun.
    apply riseset_restores in Hrun. subst this'. exact Hthis.
Qed.

Lemma Sun_stays_in_the_ecliptic_witness :
  -8.64e15 <= 0 <= 8.64e15 /\
  exists this : Planet,
    sun 3 0 = Some this /\
    z this = 0 /\ 0.87 <= distance this /\ latitude this = 0.
Proof.
  assert (Ht : -8.64e15 <= 0 <= 8.64e15) by lra.
  split; [exact Ht |].
  destruct (sun_returns_date 0 Ht) as [this Hsun].
  exists this. split; [exact Hsun |].
  exact (proj1 (Sun_stays_in_the_ecliptic 3 0 this Hsun Ht)).
Defined.

(** * Further properties *)

(** X1.  Whatever the elements, with a semi-major axis [a >= 0] and an
    eccentricity below 1 in absolute value, the object [Planet.setTime]
    leaves carries the time it was given and lies on the ellipse: its
    distance is [a * (1 - e cos E)] for an [E] that solves Kepler's equation
    up to [|e| * 1e-16], so it is never below the perihelion distance
    [a (1 - |e|)] nor above the aphelion distance [a (1 + |e|)]. *)
Theorem setTime_between_apsides
    (fuel : nat) (t a e i λ π Ω : R) (this : Planet) :
  Planet_setTime fuel t a e i λ π Ω = Some this ->
  0 <= a -> Rabs e < 1 ->
  time this = t /\
  (exists E : R,
     Rabs (λ - π - (E - e * Math.sin E)) <= Rabs e * (1e-8 * 1e-8) /\
     distance this = a * (1 - e * Math.cos E)) /\
  a * (1 - Rabs e) <= distance this <= a * (1 + Rabs e).
Proof.
  intros Hset Ha He.
  apply Planet_setTime_geometry in Hset
    as (E & HE & Htime & Hd & _); [| exact Ha | exact He].
  pose proof (kepler_result_residual _ _ _ _ _ He HE) as Hres.
  split; [exact Htime |]. split.
  - exists E. split; [exact Hres | exact Hd].
  - rewrite Hd. pose proof (COS_bound E) as Hc.
    assert (Hr : 1 - Rabs e <= 1 - e * cos E <= 1 + Rabs e)
      by (unfold Rabs; destruct (Rcase_abs e); split; nra).
    unfold Math.cos.
    split; apply Rmult_le_compat_l; lra.
Qed.

Lemma setTime_between_apsides_witness :
  exists this : Planet,
    Planet_setTime 3 0 2 0.05 0.1 1 0.5 0.2 = Some this /\
    2 * (1 - Rabs 0.05) <= distance this <= 2 * (1 + Rabs 0.05).
Proof.
  assert (He : Rabs 0.05 <= 1 / 10) by (rewrite Rabs_pos_eq; lra).
  destruct (Planet_setTime_returns 0 2 0.05 0.1 1 0.5 0.2 He) as [this Hset].
  exists this. split; [exact Hset |].
  assert (Ha : 0 <= 2) by lra.
  assert (He1 : Rabs 0.05 < 1) by lra.
  exact (proj2 (proj2 (setTime_between_apsides 3 0 2 0.05 0.1 1 0.5 0.2
                         this Hset Ha He1))).
Defined.

(** X2.  The constructors return: at every time a [Date] can hold (at
    most 8.64e15 ms from the epoch) Kepler's loop ends within three passes
    for the Moon and for the Sun, and the object carries that time; a
    larger fuel gives the same object. *)
Theorem Sun_and_Moon_are_constructed (t : R) :
  -8.64e15 <= t <= 8.64e15 ->
  (exists this : Planet,
     moon 3 t = Some this /\ time this = t /\
     forall fuel : nat, (3 <= fuel)%nat -> moon fuel t = Some this) /\
  (exists this : Planet,
     sun 3 t = Some this /\ time this = t /\
     forall fuel : nat, (3 <= fuel)%nat -> sun fuel t = Some this).
Proof.
  intros Ht. split.
  - destruct (moon_returns t) as [this Hm]. exists this.
    split; [exact Hm |]. split.
    + destruct (moon_geometry _ _ _ Hm) as (_ & _ & _ & Htime & _).
      exact Htime.
    + intros fuel Hf. unfold moon in *.
      eapply setTime_fuel_mono; [exact Hf | exact Hm].
  - destruct (sun_returns_date t Ht) as [this Hs]. exists this.
    split; [exact Hs |]. split.
    + destruct (sun_geometry _ _ _ Hs Ht) as (Htime & _). exact Htime.
    + intros fuel Hf. unfold sun in *.
      eapply setTime_fuel_mono; [exact Hf | exact Hs].
Qed.

Lemma Sun_and_Moon_are_constructed_witness :
  -8.64e15 <= 1e12 <= 8.64e15 /\
  (exists this : Planet, moon 3 1e12 = Some this /\ time this = 1e12) /\
  (exists this : Planet, sun 3 1e12 = Some this /\ time this = 1e12).
Proof.
  assert (Ht : -8.64e15 <= 1e12 <= 8.64e15) by lra.
  destruct (Sun_and_Moon_are_constructed 1e12 Ht)
    as [(m & Hm & Hmt & _) (s & Hs & Hst & _)].
  split; [exact Ht |].
  split; [exists m | exists s]; split; assumption.
Defined.

(** X3.  At every time the Moon stands between 0.00242 and 0.00271 AU, so
    the parallax that [Moon.rise] and [Moon.set] subtract lies between 0.9
    and 1.01 degrees and their threshold between -1.593 and -1.483
    degrees. *)
Theorem Moon_distance_and_threshold (fuel : nat) (t : R) (this : Planet) :
  moon fuel t = Some this ->
  0.00242 <= distance this <= 0.00271 /\
  0.9 <= parallax (distance this) <= 1.01 /\
  -1.593 <= -0.583 - parallax (distance this) <= -1.483.
Proof.
  intros Hmoon.
  destruct (moon_geometry _ _ _ Hmoon) as (_ & _ & _ & _ & _ & Hd & _).
  assert (Hp : 0.9 <= parallax (distance this) <= 1.01).
  { unfold parallax. split.
    - apply Rmult_le_reg_r with (distance this); [lra |].
      replace (2443e-6 / distance this * distance this) with 2443e-6
        by (field; lra). nra.
    - apply div_le_bound; [lra | nra]. }
  split; [exact Hd |]. split; [exact Hp | lra].
Qed.

Lemma Moon_distance_and_threshold_witness :
  exists this : Planet,
    moon 3 0 = Some this /\
    -1.593 <= -0.583 - parallax (distance this) <= -1.483.
Proof.
  destruct (moon_returns 0) as [this Hm]. exists this.
  split; [exact Hm |].
  exact (proj2 (proj2 (Moon_distance_and_threshold 3 0 this Hm))).
Defined.





(** ** Full turns *)

Lemma sin_turn (v : R) : sin (v + 2 * PI) = sin v.
Proof. rewrite sin_plus, sin_2PI, cos_2PI. ring. Qed.

Lemma cos_turn (v : R) : cos (v + 2 * PI) = cos v.
Proof. rewrite cos_plus, sin_2PI, cos_2PI. ring. Qed.

Lemma degrees_turn (v : R) :
  (v + 360) * (Math.PI / 180) = v * (Math.PI / 180) + 2 * PI.
Proof. unfold Math.PI. field. Qed.

Lemma floor_succ (v : R) : Math.floor (v + 1) = Math.floor v + 1.
Proof.
  unfold Math.floor. rewrite (Zfloor_addz 1 v). now rewrite plus_IZR.
Qed.

Lemma hour_angle_turn (this : Planet) (lon : R) :
  hour_angle this (lon + 360) = hour_angle this lon.
Proof.
  unfold hour_angle. cbv zeta.
  set (ha := gmst (time this) + lon * (1 / 15) - right_ascension this).
  replace (gmst (time this) + (lon + 360) * (1 / 15) - right_ascension this)
    with (ha + 24) by (subst ha; field).
  replace ((ha + 24) / 24) with (ha / 24 + 1) by field.
  rewrite floor_succ. ring.
Qed.

Lemma transit_turn (this : Planet) (lat lon : R) :
  transit this lat (lon + 360) = transit this lat lon.
Proof. unfold transit. cbv zeta. now rewrite hour_angle_turn. Qed.

Lemma riseset_pass_turn (lat lon direction sin_lat cos_lat sin_h0 : R)
    (this : Planet) :
  riseset_pass lat (lon + 360) direction sin_lat cos_lat sin_h0 this
  = riseset_pass lat lon direction sin_lat cos_lat sin_h0 this.
Proof. unfold riseset_pass. cbv zeta. now rewrite transit_turn. Qed.

Lemma riseset_loop_turn (cls : Class) (fuel : nat)
    (lat lon direction time_ x_ y_ z_ sin_lat cos_lat sin_h0 : R)
    (this : Planet) :
  riseset_loop cls fuel lat (lon + 360) direction time_ x_ y_ z_
    sin_lat cos_lat sin_h0 this
  = riseset_loop cls fuel lat lon direction time_ x_ y_ z_
      sin_lat cos_lat sin_h0 this.
Proof.
  revert this. induction fuel as [| fuel IH]; intros this; [reflexivity |].
  cbn [riseset_loop]. rewrite riseset_pass_turn.
  destruct (riseset_pass _ _ _ _ _ _ this) as [| v | v]; try reflexivity.
  destruct (setTime cls fuel v) as [this' |]; [apply IH | reflexivity].
Qed.

Lemma riseset_loop_latitude (cls : Class) (fuel : nat)
    (lat lat' lon direction time_ x_ y_ z_ sin_lat cos_lat sin_h0 : R)
    (this : Planet) :
  riseset_loop cls fuel lat lon direction time_ x_ y_ z_
    sin_lat cos_lat sin_h0 this
  = riseset_loop cls fuel lat' lon direction time_ x_ y_ z_
      sin_lat cos_lat sin_h0 this.
Proof.
  revert this. induction fuel as [| fuel IH]; intros this; [reflexivity |].
  cbn [riseset_loop].
  change (riseset_pass lat lon direction sin_lat cos_lat sin_h0 this)
    with (riseset_pass lat' lon direction sin_lat cos_lat sin_h0 this).
  destruct (riseset_pass _ _ _ _ _ _ this) as [| v | v]; try reflexivity.
  destruct (setTime cls fuel v) as [this' |]; [apply IH | reflexivity].
Qed.

(** X7.  A full turn added to the longitude or to the latitude changes
    nothing: the hour angle and the transit are the same at [lon + 360], and
    [riseset] (hence [rise], [set], [dawn], [dusk]) and the observer return
    the same at [lon + 360] and at [lat + 360]. *)
Theorem full_turn_changes_nothing
    (cls : Class) (fuel : nat) (this : Planet) (lat lon h0 direction : R) :
  hour_angle this (lon + 360) = hour_angle this lon /\
  transit this lat (lon + 360) = transit this lat lon /\
  riseset cls fuel this lat (lon + 360) h0 direction
  = riseset cls fuel this lat lon h0 direction /\
  riseset cls fuel this (lat + 360) lon h0 direction
  = riseset cls fuel this lat lon h0 direction /\
  observer this lat (lon + 360) = observer this lat lon /\
  observer this (lat + 360) lon = observer this lat lon.
Proof.
  split; [apply hour_angle_turn |]. split; [apply transit_turn |].
  split; [| split; [| split]].
  - unfold riseset. cbv zeta. apply riseset_loop_turn.
  - unfold riseset. cbv zeta.
    rewrite degrees_turn. unfold Math.sin, Math.cos.
    rewrite sin_turn, cos_turn. apply riseset_loop_latitude.
  - unfold observer, new_Observer. cbv zeta.
    now rewrite hour_angle_turn.
  - unfold observer, new_Observer. cbv zeta.
    rewrite degrees_turn. unfold Math.sin, Math.cos.
    now rewrite sin_turn, cos_turn.
Qed.

(** ** The returned time and the transit *)



(** ** The angular elements *)

Lemma kepler_shift (d : R) :
  (forall v : R, sin (v + d) = sin v) ->
  (forall v : R, cos (v + d) = cos v) ->
  forall (fuel : nat) (M e E : R),
    kepler fuel (M + d) e (E + d)
    = option_map (fun E' : R => E' + d) (kepler fuel M e E).
Proof.
  intros Hs Hc fuel M e. induction fuel as [| fuel IH]; intros E.
  - reflexivity.
  - rewrite !kepler_unfold.
    assert (Hd : kepler_dE (M + d) e (E + d) = kepler_dE M e E).
    { unfold kepler_dE, kepler_dM, Math.sin, Math.cos. rewrite Hs, Hc.
      f_equal. ring. }
    rewrite Hd.
    replace (E + d + kepler_dE M e E) with (E + kepler_dE M e E + d) by ring.
    destruct (Rle_dec _ _); [reflexivity | apply IH].
Qed.

Lemma Planet_setTime_shift (d : R) :
  (forall v : R, sin (v + d) = sin v) ->
  (forall v : R, cos (v + d) = cos v) ->
  forall (fuel : nat) (t a e i λ π Ω : R),
    Planet_setTime fuel t a e i (λ + d) π Ω
    = Planet_setTime fuel t a e i λ π Ω /\
    Planet_setTime fuel t a e i λ π (Ω + d)
    = Planet_setTime fuel t a e i λ π Ω /\
    Planet_setTime fuel t a e (i + d) λ π Ω
    = Planet_setTime fuel t a e i λ π Ω /\
    Planet_setTime fuel t a e i λ (π + d) Ω
    = Planet_setTime fuel t a e i λ π Ω.
Proof.
  intros Hs Hc fuel t a e i λ π Ω.
  assert (Hs' : forall v, sin (v - d) = sin v).
  { intros v. rewrite <- (Hs (v - d)). f_equal. ring. }
  assert (Hc' : forall v, cos (v - d) = cos v).
  { intros v. rewrite <- (Hc (v - d)). f_equal. ring. }
  assert (Hsn : forall v, sin (v + - d) = sin v) by (intros v; apply Hs').
  assert (Hcn : forall v, cos (v + - d) = cos v) by (intros v; apply Hc').
  split; [| split; [| split]].
  - unfold Planet_setTime. cbv zeta.
    replace (λ + d - π) with (λ - π + d) by ring.
    unfold Math.sin at 1. rewrite Hs. fold (Math.sin (λ - π)).
    replace (λ - π + d + e * Math.sin (λ - π))
      with (λ - π + e * Math.sin (λ - π) + d) by ring.
    rewrite (kepler_shift d Hs Hc).
    destruct (kepler fuel _ e _) as [E |]; [| reflexivity].
    cbn [option_map]. unfold Math.sin, Math.cos. rewrite Hs, Hc.
    reflexivity.
  - unfold Planet_setTime. cbv zeta.
    destruct (kepler fuel _ e _) as [E |]; [| reflexivity].
    replace (π - (Ω + d)) with (π - Ω - d) by ring.
    unfold Math.sin, Math.cos. rewrite !Hs, !Hc, !Hs', !Hc'.
    reflexivity.
  - unfold Planet_setTime. cbv zeta.
    destruct (kepler fuel _ e _) as [E |]; [| reflexivity].
    unfold Math.sin, Math.cos. rewrite !Hs, !Hc.
    reflexivity.
  - unfold Planet_setTime. cbv zeta.
    replace (λ - (π + d)) with (λ - π + - d) by ring.
    replace (π + d - Ω) with (π - Ω + d) by ring.
    unfold Math.sin at 1. rewrite Hsn. fold (Math.sin (λ - π)).
    replace (λ - π + - d + e * Math.sin (λ - π))
      with (λ - π + e * Math.sin (λ - π) + - d) by ring.
    rewrite (kepler_shift (- d) Hsn Hcn).
    destruct (kepler fuel _ e _) as [E |]; [| reflexivity].
    cbn [option_map]. unfold Math.sin, Math.cos. rewrite !Hsn, !Hcn, !Hs, !Hc.
    reflexivity.
Qed.

(** X12.  [Planet.setTime] does not reduce its angles, and it need not: a
    full turn added to the mean longitude [λ], to the longitude of the
    perihelion [π], to the longitude of the node [Ω] or to the inclination
    [i] moves the solution of Kepler's equation by that turn, if at all,
    with the same number of passes, and gives the same object. *)
Theorem elements_count_modulo_a_full_turn
    (fuel : nat) (t a e i λ π Ω : R) :
  Planet_setTime fuel t a e i (λ + 2 * Math.PI) π Ω
  = Planet_setTime fuel t a e i λ π Ω /\
  Planet_setTime fuel t a e i λ (π + 2 * Math.PI) Ω
  = Planet_setTime fuel t a e i λ π Ω /\
  Planet_setTime fuel t a e i λ π (Ω + 2 * Math.PI)
  = Planet_setTime fuel t a e i λ π Ω /\
  Planet_setTime fuel t a e (i + 2 * Math.PI) λ π Ω
  = Planet_setTime fuel t a e i λ π Ω /\
  kepler fuel (λ - π + 2 * Math.PI) e
    (λ - π + e * Math.sin (λ - π) + 2 * Math.PI)
  = option_map (fun E : R => E + 2 * Math.PI)
      (kepler fuel (λ - π) e (λ - π + e * Math.sin (λ - π))).
Proof.
  unfold Math.PI at 1 2 3 4 5 6.
  pose proof (Planet_setTime_shift (2 * PI) sin_turn cos_turn
                fuel t a e i λ π Ω) as (Hλ & HΩ & Hi & Hπ).
  repeat split; try assumption.
  apply kepler_shift; [exact sin_turn | exact cos_turn].
Qed.


(** ** The apsides and the circular orbit *)




